(** * mcp_server_mysql: schema introspection and query execution

    A shallow embedding of [mcp_server_mysql.py].  The three tools of the
    server ([run_query], [describe_table],
    [describe_indexes_and_foreign_keys]) are modelled together with the two
    folds that regroup catalog rows into index and foreign-key descriptors.

    Python dictionaries keep their insertion order and are read back with
    [list(d.values())], so they are modelled as association lists.  The
    database driver is outside the program: its answers are the fields of a
    [driver] record, and every call made to it is written to an event log. *)

From Stdlib Require Import List String Ascii ZArith Bool Arith Lia.
From Stdlib Require Import Permutation Sorted OrdersEx RelationClasses.
Import ListNotations.
Open Scope string_scope.

(* ------------------------------------------------------------------ *)
(** ** Python values *)

(** [x or default] on a nullable string: [None] and the empty string are
    falsy. *)
Definition py_or (x : option string) (default : string) : string :=
  match x with
  | None => default
  | Some "" => default
  | Some s => s
  end.

(** Formatting of a nullable string inside an f-string. *)
Definition py_str (x : option string) : string :=
  match x with
  | None => "None"
  | Some s => s
  end.

(** [bool(n)] on an integer. *)
Definition py_bool (n : Z) : bool := negb (n =? 0)%Z.

(** Equality of nullable strings, as used for dictionary keys. *)
Definition opt_eqb (a b : option string) : bool :=
  match a, b with
  | None, None => true
  | Some x, Some y => String.eqb x y
  | _, _ => false
  end.

(* ------------------------------------------------------------------ *)
(** ** Insertion-ordered dictionaries *)

Module PyDict.
Section Ops.
Context {K V : Type}.
Variable eqb : K -> K -> bool.

(** [d.get(k)] *)
Fixpoint get (k : K) (d : list (K * V)) : option V :=
  match d with
  | [] => None
  | (k', v) :: t => if eqb k k' then Some v else get k t
  end.

(** [k in d] *)
Definition mem (k : K) (d : list (K * V)) : bool :=
  match get k d with Some _ => true | None => false end.

(** [d[k] = v]: an existing key keeps its position, a new one goes last. *)
Fixpoint set_item (k : K) (v : V) (d : list (K * V)) : list (K * V) :=
  match d with
  | [] => [(k, v)]
  | (k', v') :: t =>
      if eqb k k' then (k', v) :: t else (k', v') :: set_item k v t
  end.

(** In-place mutation of the value stored under [k] (as in
    [d[k]["columns"].append(x)]).  Python raises [KeyError] on a missing
    key; the folds below only mutate a key they have just ensured. *)
Fixpoint adjust (f : V -> V) (k : K) (d : list (K * V)) : list (K * V) :=
  match d with
  | [] => []
  | (k', v) :: t =>
      if eqb k k' then (k', f v) :: t else (k', v) :: adjust f k t
  end.

Definition keys (d : list (K * V)) : list K := map fst d.

(** [list(d.values())] *)
Definition values (d : list (K * V)) : list V := map snd d.
End Ops.
End PyDict.

(* ------------------------------------------------------------------ *)
(** ** Catalog rows and descriptors *)

(** A row of the index-statistics query (lines 98-107). *)
Record idx_row := {
  ix_INDEX_NAME : option string;
  ix_IS_PRIMARY_OR_UNIQUE : Z;
  ix_SEQ_IN_INDEX : Z;
  ix_COLUMN_NAME : option string
}.

Record IndexColumn := {
  ic_name : option string;
  ic_seq_in_index : Z
}.

Record IndexDescriptor := {
  idx_name : string;
  is_primary_or_unique : bool;
  idx_columns : list IndexColumn
}.

(** A row of the key-usage query (lines 109-123). *)
Record fk_row := {
  ku_CONSTRAINT_NAME : option string;
  ku_TABLE_SCHEMA : option string;
  ku_TABLE_NAME : option string;
  ku_COLUMN_NAME : option string;
  ku_REFERENCED_TABLE_SCHEMA : option string;
  ku_REFERENCED_TABLE_NAME : option string;
  ku_REFERENCED_COLUMN_NAME : option string
}.

Record FkColumn := {
  fc_column : option string;
  fc_references : option string
}.

Record OutboundFk := {
  ob_name : option string;
  target_schema : option string;
  target_table : option string;
  ob_columns : list FkColumn
}.

Record InboundFk := {
  ib_name : option string;
  source_schema : option string;
  source_table : option string;
  ib_columns : list FkColumn
}.

(* ------------------------------------------------------------------ *)
(** ** The index fold (lines 129-143) *)

Definition index_key (row : idx_row) : string :=
  py_or (ix_INDEX_NAME row) "(unnamed)".

Definition index_column (row : idx_row) : IndexColumn :=
  {| ic_name := ix_COLUMN_NAME row; ic_seq_in_index := ix_SEQ_IN_INDEX row |}.

Definition index_new (row : idx_row) : IndexDescriptor :=
  {| idx_name := index_key row;
     is_primary_or_unique := py_bool (ix_IS_PRIMARY_OR_UNIQUE row);
     idx_columns := [] |}.

Definition index_append (c : IndexColumn) (d : IndexDescriptor)
  : IndexDescriptor :=
  {| idx_name := idx_name d;
     is_primary_or_unique := is_primary_or_unique d;
     idx_columns := idx_columns d ++ [c] |}.

(** One iteration of [for row in idx_rows]. *)
Definition index_step (indexes : list (string * IndexDescriptor))
  (row : idx_row) : list (string * IndexDescriptor) :=
  let idx_name := index_key row in
  let indexes :=
    if PyDict.mem String.eqb idx_name indexes then indexes
    else PyDict.set_item String.eqb idx_name (index_new row) indexes in
  PyDict.adjust String.eqb (index_append (index_column row)) idx_name indexes.

Definition index_fold (idx_rows : list idx_row)
  : list (string * IndexDescriptor) :=
  fold_left index_step idx_rows [].

(* ------------------------------------------------------------------ *)
(** ** The foreign-key fold (lines 148-180) *)

Definition fk_column (row : fk_row) : FkColumn :=
  {| fc_column := ku_COLUMN_NAME row;
     fc_references := ku_REFERENCED_COLUMN_NAME row |}.

Definition outbound_new (row : fk_row) : OutboundFk :=
  {| ob_name := ku_CONSTRAINT_NAME row;
     target_schema := ku_REFERENCED_TABLE_SCHEMA row;
     target_table := ku_REFERENCED_TABLE_NAME row;
     ob_columns := [] |}.

Definition outbound_append (c : FkColumn) (d : OutboundFk) : OutboundFk :=
  {| ob_name := ob_name d;
     target_schema := target_schema d;
     target_table := target_table d;
     ob_columns := ob_columns d ++ [c] |}.

(** The f-string of line 167. *)
Definition inbound_key (row : fk_row) : string :=
  py_str (ku_REFERENCED_TABLE_SCHEMA row) ++ "." ++
  py_str (ku_REFERENCED_TABLE_NAME row) ++ "." ++
  py_str (ku_CONSTRAINT_NAME row).

(** No ["."] occurs in [s]: the separator of [inbound_key] is then
    unambiguous. *)
Fixpoint dot_free (s : string) : bool :=
  match s with
  | EmptyString => true
  | String c t => negb (Ascii.eqb c ".") && dot_free t
  end.

Definition inbound_new (row : fk_row) : InboundFk :=
  {| ib_name := ku_CONSTRAINT_NAME row;
     source_schema := ku_TABLE_SCHEMA row;
     source_table := ku_TABLE_NAME row;
     ib_columns := [] |}.

Definition inbound_append (c : FkColumn) (d : InboundFk) : InboundFk :=
  {| ib_name := ib_name d;
     source_schema := source_schema d;
     source_table := source_table d;
     ib_columns := ib_columns d ++ [c] |}.

Definition outbound_step (outbound : list (option string * OutboundFk))
  (row : fk_row) : list (option string * OutboundFk) :=
  let fk_name := ku_CONSTRAINT_NAME row in
  let outbound :=
    if PyDict.mem opt_eqb fk_name outbound then outbound
    else PyDict.set_item opt_eqb fk_name (outbound_new row) outbound in
  PyDict.adjust opt_eqb (outbound_append (fk_column row)) fk_name outbound.

Definition inbound_step (inbound : list (string * InboundFk))
  (row : fk_row) : list (string * InboundFk) :=
  let key := inbound_key row in
  let inbound :=
    if PyDict.mem String.eqb key inbound then inbound
    else PyDict.set_item String.eqb key (inbound_new row) inbound in
  PyDict.adjust String.eqb (inbound_append (fk_column row)) key inbound.

(** The two dictionaries built by the single pass over [fk_rows]. *)
Record fk_state := {
  outbound : list (option string * OutboundFk);
  inbound : list (string * InboundFk)
}.

(** One iteration of [for row in fk_rows]. *)
Definition fk_step (st : fk_state) (row : fk_row) : fk_state :=
  {| outbound := outbound_step (outbound st) row;
     inbound := inbound_step (inbound st) row |}.

Definition fk_fold (fk_rows : list fk_row) : fk_state :=
  fold_left fk_step fk_rows {| outbound := []; inbound := [] |}.

(* ------------------------------------------------------------------ *)
(** ** Sorting, as the specification words it

    The program never sorts: it relies on the [ORDER BY] of its queries.
    The order-independence property speaks of "sorting each descriptor's
    column list by sequence-in-index" and of "the rows sorted by
    (name, sequence)"; both are given here as stable insertion sorts. *)

Section InsertionSort.
Context {A : Type}.
Variable le : A -> A -> bool.

Fixpoint insert_by (x : A) (l : list A) : list A :=
  match l with
  | [] => [x]
  | y :: t => if le x y then x :: l else y :: insert_by x t
  end.

Definition sort_by (l : list A) : list A := fold_right insert_by [] l.
End InsertionSort.

Definition column_le (c1 c2 : IndexColumn) : bool :=
  (ic_seq_in_index c1 <=? ic_seq_in_index c2)%Z.

(** Rows compared by (index name, sequence-in-index), the name being the
    one the fold groups by. *)
Definition row_le (r1 r2 : idx_row) : bool :=
  match OrdersEx.String_as_OT.compare (index_key r1) (index_key r2) with
  | Lt => true
  | Eq => (ix_SEQ_IN_INDEX r1 <=? ix_SEQ_IN_INDEX r2)%Z
  | Gt => false
  end.

Definition sort_columns (d : IndexDescriptor) : IndexDescriptor :=
  {| idx_name := idx_name d;
     is_primary_or_unique := is_primary_or_unique d;
     idx_columns := sort_by column_le (idx_columns d) |}.

(** Fold, then sort every descriptor's column list by sequence. *)
Definition grouped_then_sorted (rows : list idx_row) : list IndexDescriptor :=
  map sort_columns (PyDict.values (index_fold rows)).

(** Sort the rows by (name, sequence), then fold. *)
Definition sorted_then_grouped (rows : list idx_row) : list IndexDescriptor :=
  PyDict.values (index_fold (sort_by row_le rows)).

(** Total number of column entries held by a list of descriptors. *)
Definition total_entries {D E : Type} (columns : D -> list E) (ds : list D)
  : nat :=
  list_sum (map (fun d => List.length (columns d)) ds).

(* ------------------------------------------------------------------ *)
(** ** The driver and the effects of a tool call *)

(** Exceptions raised by the driver or the pool. *)
Inductive exn := DriverError (msg : string).

Inductive outcome (A : Type) :=
| Returns (a : A)
| Raises (e : exn).
Arguments Returns {A} a.
Arguments Raises {A} e.

(** A value of a result row. *)
Inductive value :=
| VNull
| VInt (n : Z)
| VStr (s : string).

(** A row of a dictionary cursor: column name to value. *)
Definition row_dict := list (string * value).

(** An item of [cur.description]; item 0 is the column name. *)
Record col_desc := {
  cd_name : string;
  cd_type_code : Z
}.

(** The cursor attributes read after [cur.execute]. *)
Record cursor_attrs := {
  description : option (list col_desc);
  rowcount : Z
}.

(** [if cur.description:] - [None] and the empty list are falsy. *)
Definition has_result_set (a : cursor_attrs) : bool :=
  match description a with
  | Some (_ :: _) => true
  | _ => false
  end.

Definition column_names (a : cursor_attrs) : list string :=
  match description a with
  | Some cols => map cd_name cols
  | None => []
  end.

(** The statements sent to the server: caller-supplied text, or one of the
    three fixed catalog queries with its bind parameters. *)
Inductive statement :=
| SqlText (sql : string)
| ColumnsQuery (schema table_name : string)
| IndexQuery (schema table_name : string)
| FkQuery (schema table_name : string).

(** A row of the column-metadata query (lines 69-74). *)
Record column_row := {
  col_COLUMN_NAME : option string;
  col_DATA_TYPE : option string;
  col_IS_NULLABLE : option string;
  col_CHARACTER_MAXIMUM_LENGTH : option Z
}.

(** What the pool, the connection and the cursor answer during one tool
    call.  A dictionary cursor keys each row by the select list of its
    statement, so the rows of a fixed catalog query are records of its
    columns. *)
Record driver := {
  drv_get_connection : outcome unit;
  drv_cursor : outcome unit;
  drv_execute : statement -> outcome cursor_attrs;
  drv_fetch_rows : string -> outcome (list row_dict);
  drv_fetch_columns : string -> string -> outcome (list column_row);
  drv_fetch_statistics : string -> string -> outcome (list idx_row);
  drv_fetch_key_usage : string -> string -> outcome (list fk_row);
  drv_commit : outcome unit;
  drv_cursor_close : outcome unit;
  drv_close : outcome unit
}.

(** The calls a tool makes, in the order it makes them. *)
Inductive event :=
| EvGetConnection
| EvCursor
| EvExecute (s : statement)
| EvFetchall
| EvCommit
| EvCursorClose
| EvConnClose.

Definition is_commit (e : event) : bool :=
  match e with EvCommit => true | _ => false end.

Definition is_conn_close (e : event) : bool :=
  match e with EvConnClose => true | _ => false end.

Definition count_events (p : event -> bool) (log : list event) : nat :=
  List.length (filter p log).

(** The connection was handed back: [conn.close()] is the last call made,
    and it was made once. *)
Definition released (log : list event) : Prop :=
  exists before, log = (before ++ [EvConnClose])%list
                 /\ count_events is_conn_close before = 0.

(** Computations that log their driver calls and may raise. *)
Definition M (A : Type) : Type := list event -> outcome A * list event.

Definition ret {A : Type} (a : A) : M A := fun log => (Returns a, log).

Definition bind {A B : Type} (m : M A) (k : A -> M B) : M B :=
  fun log =>
    match m log with
    | (Returns a, log') => k a log'
    | (Raises e, log') => (Raises e, log')
    end.

Notation "x <- m ;; k" := (bind m (fun x => k))
  (at level 61, m at next level, right associativity).

(** A driver call: logged, then answered by the driver. *)
Definition call {A : Type} (ev : event) (answer : outcome A) : M A :=
  fun log => (answer, (log ++ [ev])%list).

(** [try: body finally: cleanup].  The cleanup runs on every exit of the
    body; an exception raised by the cleanup replaces the body's result. *)
Definition try_finally {A : Type} (body : M A) (cleanup : M unit) : M A :=
  fun log =>
    let (r, log1) := body log in
    match cleanup log1 with
    | (Returns _, log2) => (r, log2)
    | (Raises e, log2) => (Raises e, log2)
    end.

(** [with conn.cursor(dictionary=True) as cur: body].  The cursor is closed
    when the block is left, whether by [return] or by an exception. *)
Definition with_cursor {A : Type} (drv : driver) (body : M A) : M A :=
  _ <- call EvCursor (drv_cursor drv) ;;
  try_finally body (call EvCursorClose (drv_cursor_close drv)).

(* ------------------------------------------------------------------ *)
(** ** The connection pool (lines 13-30) *)

Record pool_config := {
  pool_name : string;
  pool_size : nat;
  pc_host : string;
  pc_user : string;
  pc_password : string;
  pc_database : string;
  pc_port : Z;
  charset : string;
  autocommit : bool
}.

Definition build_connection_pool (host user password database : string)
  (port : Z) : pool_config :=
  {| pool_name := "mcp_mysql_pool";
     pool_size := 5;
     pc_host := host;
     pc_user := user;
     pc_password := password;
     pc_database := database;
     pc_port := port;
     charset := "utf8mb4";
     autocommit := false |}.

Definition get_conn (drv : driver) : M unit :=
  call EvGetConnection (drv_get_connection drv).

(* ------------------------------------------------------------------ *)
(** ** The tools *)

Inductive query_result :=
| QRows (columns : list string) (rows : list row_dict)
| QAffected (rows_affected : Z).

(** [run_query] (lines 48-59). *)
Definition run_query (drv : driver) (sql : string) : M query_result :=
  _ <- get_conn drv ;;
  try_finally
    (with_cursor drv
       (cur <- call (EvExecute (SqlText sql)) (drv_execute drv (SqlText sql)) ;;
        if has_result_set cur then
          rows <- call EvFetchall (drv_fetch_rows drv sql) ;;
          ret (QRows (column_names cur) rows)
        else
          _ <- call EvCommit (drv_commit drv) ;;
          ret (QAffected (rowcount cur))))
    (call EvConnClose (drv_close drv)).

Record ColumnDescriptor := {
  cdesc_column : option string;
  cdesc_type : option string;
  cdesc_nullable : bool;
  cdesc_length : option Z
}.

Definition column_descriptor (row : column_row) : ColumnDescriptor :=
  {| cdesc_column := col_COLUMN_NAME row;
     cdesc_type := col_DATA_TYPE row;
     cdesc_nullable := opt_eqb (col_IS_NULLABLE row) (Some "YES");
     cdesc_length := col_CHARACTER_MAXIMUM_LENGTH row |}.

(** [describe_table] (lines 67-88). *)
Definition describe_table (drv : driver) (schema table_name : string)
  : M (list ColumnDescriptor) :=
  _ <- get_conn drv ;;
  try_finally
    (with_cursor drv
       (_ <- call (EvExecute (ColumnsQuery schema table_name))
               (drv_execute drv (ColumnsQuery schema table_name)) ;;
        rows <- call EvFetchall (drv_fetch_columns drv schema table_name) ;;
        ret (map column_descriptor rows)))
    (call EvConnClose (drv_close drv)).

Record relationships := {
  indexes : list IndexDescriptor;
  foreign_keys_outbound : list OutboundFk;
  foreign_keys_inbound : list InboundFk
}.

(** [describe_indexes_and_foreign_keys] (lines 96-188). *)
Definition describe_indexes_and_foreign_keys (drv : driver)
  (schema table_name : string) : M relationships :=
  _ <- get_conn drv ;;
  try_finally
    (folded <- with_cursor drv
       (_ <- call (EvExecute (IndexQuery schema table_name))
               (drv_execute drv (IndexQuery schema table_name)) ;;
        idx_rows <- call EvFetchall
                      (drv_fetch_statistics drv schema table_name) ;;
        let indexes := index_fold idx_rows in
        _ <- call (EvExecute (FkQuery schema table_name))
               (drv_execute drv (FkQuery schema table_name)) ;;
        fk_rows <- call EvFetchall
                     (drv_fetch_key_usage drv schema table_name) ;;
        ret (indexes, fk_fold fk_rows)) ;;
     ret {| indexes := PyDict.values (fst folded);
            foreign_keys_outbound := PyDict.values (outbound (snd folded));
            foreign_keys_inbound := PyDict.values (inbound (snd folded)) |})
    (call EvConnClose (drv_close drv)).

(* ------------------------------------------------------------------ *)
(** ** The shape shared by the three grouping loops

    Each loop body reads: ensure a descriptor under the row's key, then
    append to it.  [group_step] abstracts the key, the fresh descriptor and
    the mutation, so that the three loops can share their lemmas. *)

Section GroupStep.
Context {K V R : Type}.
Variable eqb : K -> K -> bool.
Variable key : R -> K.
Variable new : R -> V.
Variable upd : R -> V -> V.

Definition group_step (d : list (K * V)) (r : R) : list (K * V) :=
  let d :=
    if PyDict.mem eqb (key r) d then d
    else PyDict.set_item eqb (key r) (new r) d in
  PyDict.adjust eqb (upd r) (key r) d.

Definition group_fold (rows : list R) : list (K * V) :=
  fold_left group_step rows [].

(** The rows of the group of [k], in input order. *)
Definition group_rows (k : K) (rows : list R) : list R :=
  filter (fun r => eqb k (key r)) rows.
End GroupStep.

(* ------------------------------------------------------------------ *)
(** ** Sample catalog contents *)

Definition mk_idx_row (name : option string) (unique seq : Z) (col : string)
  : idx_row :=
  {| ix_INDEX_NAME := name;
     ix_IS_PRIMARY_OR_UNIQUE := unique;
     ix_SEQ_IN_INDEX := seq;
     ix_COLUMN_NAME := Some col |}.

(** A primary key, a two-column index and an unnamed index, as the
    statistics query orders them. *)
Definition sample_idx_rows : list idx_row :=
  [ mk_idx_row (Some "PRIMARY") 1 1 "id";
    mk_idx_row (Some "idx_ab") 0 1 "a";
    mk_idx_row (Some "idx_ab") 0 2 "b";
    mk_idx_row None 0 1 "c" ].

(** The same rows in another order. *)
Definition shuffled_idx_rows : list idx_row :=
  [ mk_idx_row (Some "idx_ab") 0 2 "b";
    mk_idx_row (Some "PRIMARY") 1 1 "id";
    mk_idx_row (Some "idx_ab") 0 1 "a";
    mk_idx_row None 0 1 "c" ].

(** Two unnamed single-column indexes: same key, same sequence number. *)
Definition tied_idx_rows : list idx_row :=
  [ mk_idx_row None 0 1 "a"; mk_idx_row None 0 1 "b" ].

Definition mk_fk_row (name column ref_schema ref_table ref_column : string)
  : fk_row :=
  {| ku_CONSTRAINT_NAME := Some name;
     ku_TABLE_SCHEMA := Some "shop";
     ku_TABLE_NAME := Some "child";
     ku_COLUMN_NAME := Some column;
     ku_REFERENCED_TABLE_SCHEMA := Some ref_schema;
     ku_REFERENCED_TABLE_NAME := Some ref_table;
     ku_REFERENCED_COLUMN_NAME := Some ref_column |}.

(** A two-column foreign key and a single-column one. *)
Definition sample_fk_rows : list fk_row :=
  [ mk_fk_row "fk_order" "order_id" "shop" "orders" "id";
    mk_fk_row "fk_order" "order_region" "shop" "orders" "region";
    mk_fk_row "fk_owner" "owner_id" "crm" "people" "id" ].

(** Constraint [eu.fk_parent] on [shop.orders] and constraint [fk_parent]
    on [shop.`orders.eu`]: different tables, different names. *)
Definition dotted_fk_rows : list fk_row :=
  [ mk_fk_row "eu.fk_parent" "eu_order_id" "shop" "orders" "id";
    mk_fk_row "fk_parent" "order_id" "shop" "orders.eu" "id" ].

(** Descriptors the folds build from the sample rows. *)
Definition sample_idx_ab : IndexDescriptor :=
  {| idx_name := "idx_ab";
     is_primary_or_unique := false;
     idx_columns := [ {| ic_name := Some "a"; ic_seq_in_index := 1 |};
                      {| ic_name := Some "b"; ic_seq_in_index := 2 |} ] |}.

Definition sample_fk_order : OutboundFk :=
  {| ob_name := Some "fk_order";
     target_schema := Some "shop";
     target_table := Some "orders";
     ob_columns := [ {| fc_column := Some "order_id";
                        fc_references := Some "id" |};
                     {| fc_column := Some "order_region";
                        fc_references := Some "region" |} ] |}.

(** A server with an empty catalog that answers [SELECT 1 AS x] with one
    row and reports zero affected rows for anything else. *)
Definition sample_driver : driver :=
  {| drv_get_connection := Returns tt;
     drv_cursor := Returns tt;
     drv_execute := fun s =>
       match s with
       | SqlText "SELECT 1 AS x" =>
           Returns {| description := Some [ {| cd_name := "x";
                                               cd_type_code := 8 |} ];
                      rowcount := 1 |}
       | SqlText _ => Returns {| description := None; rowcount := 0 |}
       | _ => Returns {| description := Some [ {| cd_name := "COLUMN_NAME";
                                                  cd_type_code := 253 |} ];
                         rowcount := 0 |}
       end;
     drv_fetch_rows := fun _ => Returns [ [("x", VInt 1)] ];
     drv_fetch_columns := fun _ _ => Returns [];
     drv_fetch_statistics := fun _ _ => Returns [];
     drv_fetch_key_usage := fun _ _ => Returns [];
     drv_commit := Returns tt;
     drv_cursor_close := Returns tt;
     drv_close := Returns tt |}.

(** A server on which every statement fails. *)
Definition failing_driver : driver :=
  {| drv_get_connection := Returns tt;
     drv_cursor := Returns tt;
     drv_execute := fun _ => Raises (DriverError "syntax error");
     drv_fetch_rows := fun _ => Returns [];
     drv_fetch_columns := fun _ _ => Returns [];
     drv_fetch_statistics := fun _ _ => Returns [];
     drv_fetch_key_usage := fun _ _ => Returns [];
     drv_commit := Returns tt;
     drv_cursor_close := Returns tt;
     drv_close := Returns tt |}.

(* ------------------------------------------------------------------ *)
(** ** Order of the descriptors and reading of the call log *)

Section FirstSeen.
Context {K : Type}.
Variable eqb : K -> K -> bool.

(** The keys of a list in the order of their first occurrence. *)
Fixpoint first_seen (ks : list K) : list K :=
  match ks with
  | [] => []
  | k :: t => k :: filter (fun k' => negb (eqb k k')) (first_seen t)
  end.
End FirstSeen.

(** The statements sent with [cur.execute], in order. *)
Definition executed (log : list event) : list statement :=
  flat_map (fun e => match e with EvExecute s => [s] | _ => [] end) log.

Definition is_cursor_close (e : event) : bool :=
  match e with EvCursorClose => true | _ => false end.

Definition is_fetchall (e : event) : bool :=
  match e with EvFetchall => true | _ => false end.

(** All column entries of a list of descriptors, in order. *)
Definition all_entries {D E : Type} (columns : D -> list E) (ds : list D)
  : list E :=
  List.concat (map columns ds).

(* ------------------------------------------------------------------ *)
(** ** Reading the pool settings from the environment (lines 13-18) *)

Inductive config_error :=
| KeyError (name : string)
| ValueError (text : string).

(** [os.environ[name]] *)
Definition environ_getitem (environ : list (string * string)) (name : string)
  : config_error + string :=
  match PyDict.get String.eqb name environ with
  | Some v => inr v
  | None => inl (KeyError name)
  end.

(** [os.environ.get(name, default)] *)
Definition environ_get (environ : list (string * string))
  (name default : string) : string :=
  match PyDict.get String.eqb name environ with
  | Some v => v
  | None => default
  end.

Section PoolFromEnviron.
(** Python's [int] on a string; [None] stands for [ValueError]. *)
Variable py_int : string -> option Z.

(** The body of [build_connection_pool]: the four required variables are
    read in order, then the port, then the pool is built. *)
Definition build_connection_pool_from (environ : list (string * string))
  : config_error + pool_config :=
  match environ_getitem environ "MYSQL_HOST" with
  | inl e => inl e
  | inr host =>
  match environ_getitem environ "MYSQL_USER" with
  | inl e => inl e
  | inr user =>
  match environ_getitem environ "MYSQL_PASSWORD" with
  | inl e => inl e
  | inr password =>
  match environ_getitem environ "MYSQL_DB" with
  | inl e => inl e
  | inr database =>
  let text := environ_get environ "MYSQL_PORT" "3306" in
  match py_int text with
  | None => inl (ValueError text)
  | Some port =>
      inr (build_connection_pool host user password database port)
  end end end end end.
End PoolFromEnviron.

(** Decimal digits only: the part of [int] the samples need. *)
Fixpoint digits_value (acc : Z) (s : string) : option Z :=
  match s with
  | EmptyString => Some acc
  | String c t =>
      let n := Z.of_nat (nat_of_ascii c) in
      if ((48 <=? n) && (n <=? 57))%Z
      then digits_value (10 * acc + (n - 48)) t
      else None
  end.

Definition sample_int (s : string) : option Z :=
  match s with
  | EmptyString => None
  | _ => digits_value 0 s
  end.

Definition sample_environ : list (string * string) :=
  [ ("MYSQL_HOST", "db.internal"); ("MYSQL_USER", "app");
    ("MYSQL_PASSWORD", "secret"); ("MYSQL_DB", "shop") ].

(** A pool with no connection left. *)
Definition exhausted_driver : driver :=
  {| drv_get_connection := Raises (DriverError "pool exhausted");
     drv_cursor := Returns tt;
     drv_execute := fun _ => Returns {| description := None; rowcount := 0 |};
     drv_fetch_rows := fun _ => Returns [];
     drv_fetch_columns := fun _ _ => Returns [];
     drv_fetch_statistics := fun _ _ => Returns [];
     drv_fetch_key_usage := fun _ _ => Returns [];
     drv_commit := Returns tt;
     drv_cursor_close := Returns tt;
     drv_close := Returns tt |}.

(** A server that answers, on a connection whose [close] fails. *)
Definition close_failing_driver : driver :=
  {| drv_get_connection := Returns tt;
     drv_cursor := Returns tt;
     drv_execute := fun _ => Returns {| description := None; rowcount := 3 |};
     drv_fetch_rows := fun _ => Returns [];
     drv_fetch_columns := fun _ _ => Returns [];
     drv_fetch_statistics := fun _ _ => Returns [];
     drv_fetch_key_usage := fun _ _ => Returns [];
     drv_commit := Returns tt;
     drv_cursor_close := Returns tt;
     drv_close := Raises (DriverError "connection lost") |}.

(** A server whose catalog holds the sample rows. *)
Definition catalog_driver : driver :=
  {| drv_get_connection := Returns tt;
     drv_cursor := Returns tt;
     drv_execute := fun _ => Returns {| description := None; rowcount := 0 |};
     drv_fetch_rows := fun _ => Returns [];
     drv_fetch_columns := fun _ _ =>
       Returns [ {| col_COLUMN_NAME := Some "id";
                    col_DATA_TYPE := Some "int";
                    col_IS_NULLABLE := Some "NO";
                    col_CHARACTER_MAXIMUM_LENGTH := None |};
                 {| col_COLUMN_NAME := Some "label";
                    col_DATA_TYPE := Some "varchar";
                    col_IS_NULLABLE := Some "YES";
                    col_CHARACTER_MAXIMUM_LENGTH := Some 64%Z |} ];
     drv_fetch_statistics := fun _ _ => Returns sample_idx_rows;
     drv_fetch_key_usage := fun _ _ => Returns sample_fk_rows;
     drv_commit := Returns tt;
     drv_cursor_close := Returns tt;
     drv_close := Returns tt |}.

(** A server that answers the index query and rejects the key-usage
    query. *)
Definition key_usage_denied_driver : driver :=
  {| drv_get_connection := Returns tt;
     drv_cursor := Returns tt;
     drv_execute := fun s =>
       match s with
       | FkQuery _ _ => Raises (DriverError "access denied")
       | _ => Returns {| description := None; rowcount := 0 |}
       end;
     drv_fetch_rows := fun _ => Returns [];
     drv_fetch_columns := fun _ _ => Returns [];
     drv_fetch_statistics := fun _ _ => Returns sample_idx_rows;
     drv_fetch_key_usage := fun _ _ => Returns sample_fk_rows;
     drv_commit := Returns tt;
     drv_cursor_close := Returns tt;
     drv_close := Returns tt |}.

(* ================================================================== *)
(** * Properties *)

Lemma opt_eqb_eq (a b : option string) : opt_eqb a b = true <-> a = b.
Proof.
  destruct a as [x|], b as [y|]; simpl; split; intro H;
    try discriminate; try reflexivity.
  - apply String.eqb_eq in H. now subst.
  - injection H as ->. apply String.eqb_refl.
Qed.

(** ** Dictionary facts *)

Section DictFacts.
Context {K V : Type}.
Variable eqb : K -> K -> bool.
Hypothesis eqb_eq : forall a b, eqb a b = true <-> a = b.

Local Abbreviation get := (PyDict.get eqb).
Local Abbreviation mem := (PyDict.mem eqb).
Local Abbreviation set_item := (PyDict.set_item eqb).
Local Abbreviation adjust := (PyDict.adjust eqb).
Local Abbreviation keys := (@PyDict.keys K V).
Local Abbreviation values := (@PyDict.values K V).

Lemma eqb_refl k : eqb k k = true.
Proof. now apply eqb_eq. Qed.

Lemma eqb_neq a b : a <> b -> eqb a b = false.
Proof.
  intro H. destruct (eqb a b) eqn:E; [|reflexivity].
  apply eqb_eq in E. contradiction.
Qed.

Lemma get_adjust_same f k (d : list (K * V)) :
  get k (adjust f k d) = option_map f (get k d).
Proof.
  induction d as [|[k' v] t IH]; simpl; [reflexivity|].
  destruct (eqb k k') eqn:E; simpl; rewrite E; auto.
Qed.

Lemma get_adjust_other f k k' (d : list (K * V)) :
  k <> k' -> get k (adjust f k' d) = get k d.
Proof.
  intro Hne. induction d as [|[k0 v] t IH]; simpl; [reflexivity|].
  destruct (eqb k' k0) eqn:E; simpl.
  - apply eqb_eq in E. subst k0. now rewrite (eqb_neq _ _ Hne).
  - destruct (eqb k k0); auto.
Qed.

Lemma get_set_item_same k v (d : list (K * V)) :
  get k (set_item k v d) = Some v.
Proof.
  induction d as [|[k' v'] t IH]; simpl.
  - now rewrite eqb_refl.
  - destruct (eqb k k') eqn:E; simpl; rewrite E; auto.
Qed.

Lemma get_set_item_other k k' v (d : list (K * V)) :
  k <> k' -> get k (set_item k' v d) = get k d.
Proof.
  intro Hne. induction d as [|[k0 v0] t IH]; simpl.
  - now rewrite (eqb_neq _ _ Hne).
  - destruct (eqb k' k0) eqn:E; simpl.
    + apply eqb_eq in E. subst k0. now rewrite (eqb_neq _ _ Hne).
    + destruct (eqb k k0); auto.
Qed.

Lemma set_item_fresh k v (d : list (K * V)) :
  get k d = None -> set_item k v d = (d ++ [(k, v)])%list.
Proof.
  induction d as [|[k' v'] t IH]; simpl; [reflexivity|].
  destruct (eqb k k'); [discriminate|].
  intro H. now rewrite IH.
Qed.

Lemma adjust_fresh_last f k v (d : list (K * V)) :
  get k d = None ->
  adjust f k (d ++ [(k, v)]) = (d ++ [(k, f v)])%list.
Proof.
  induction d as [|[k' v'] t IH]; simpl.
  - now rewrite eqb_refl.
  - destruct (eqb k k'); [discriminate|].
    intro H. now rewrite IH.
Qed.

Lemma adjust_present f k v (d : list (K * V)) :
  get k d = Some v ->
  exists l1 l2,
    d = (l1 ++ (k, v) :: l2)%list /\ get k l1 = None /\
    adjust f k d = (l1 ++ (k, f v) :: l2)%list.
Proof.
  induction d as [|[k' v'] t IH]; simpl; [discriminate|].
  destruct (eqb k k') eqn:E.
  - intro H. injection H as ->. apply eqb_eq in E. subst k'.
    exists [], t. simpl. auto.
  - intro H. destruct (IH H) as (l1 & l2 & -> & Hn & Ha).
    exists ((k', v') :: l1), l2. simpl. rewrite E, Ha. auto.
Qed.

Lemma in_keys_get k (d : list (K * V)) :
  In k (keys d) <-> get k d <> None.
Proof.
  induction d as [|[k' v] t IH]; simpl.
  - split; [tauto | congruence].
  - destruct (eqb k k') eqn:E.
    + apply eqb_eq in E. subst. split; [discriminate | auto].
    + rewrite <- IH. split; [|auto].
      intros [H|H]; [|exact H]. subst k'. rewrite eqb_refl in E. discriminate.
Qed.

Lemma in_get k v (d : list (K * V)) :
  NoDup (keys d) -> (In (k, v) d <-> get k d = Some v).
Proof.
  induction d as [|[k' v'] t IH]; simpl; intro Hnd.
  - split; [tauto | discriminate].
  - inversion Hnd as [|? ? Hnot Hnd']; subst.
    destruct (eqb k k') eqn:E.
    + apply eqb_eq in E. subst k'. split.
      * intros [H|H]; [congruence|].
        exfalso. apply Hnot. apply (in_map fst) in H. exact H.
      * intro H. left. congruence.
    + rewrite <- (IH Hnd'). split; [|auto].
      intros [H|H]; [|exact H].
      injection H as -> ->. rewrite eqb_refl in E. discriminate.
Qed.

Lemma keys_adjust f k (d : list (K * V)) : keys (adjust f k d) = keys d.
Proof.
  induction d as [|[k' v] t IH]; simpl; [reflexivity|].
  destruct (eqb k k'); simpl; [reflexivity | now rewrite IH].
Qed.
End DictFacts.

(** ** Facts shared by the three grouping loops *)

Section GroupFacts.
Context {K V R : Type}.
Variable eqb : K -> K -> bool.
Hypothesis eqb_eq : forall a b, eqb a b = true <-> a = b.
Variable key : R -> K.
Variable new : R -> V.
Variable upd : R -> V -> V.

Local Abbreviation get := (PyDict.get eqb).
Local Abbreviation step := (group_step eqb key new upd).
Local Abbreviation gfold := (group_fold eqb key new upd).
Local Abbreviation rows_of := (group_rows eqb key).

(** What a group holds once all its rows went through [upd]. *)
Local Abbreviation built g r0 := (fold_left (fun v r => upd r v) g (new r0)).

Lemma group_step_absent d r :
  get (key r) d = None ->
  step d r = (d ++ [(key r, upd r (new r))])%list.
Proof.
  intro H. unfold group_step, PyDict.mem. rewrite H.
  rewrite (set_item_fresh eqb) by exact H.
  now apply adjust_fresh_last.
Qed.

Lemma group_step_present d r v :
  get (key r) d = Some v ->
  exists l1 l2,
    d = (l1 ++ (key r, v) :: l2)%list /\ get (key r) l1 = None /\
    step d r = (l1 ++ (key r, upd r v) :: l2)%list.
Proof.
  intro H. unfold group_step, PyDict.mem. rewrite H.
  now apply adjust_present.
Qed.

Lemma get_group_step_same d r :
  get (key r) (step d r) =
  Some (upd r (match get (key r) d with Some v => v | None => new r end)).
Proof.
  unfold group_step, PyDict.mem. rewrite get_adjust_same.
  destruct (get (key r) d) eqn:E.
  - now rewrite E.
  - now rewrite get_set_item_same.
Qed.

Lemma get_group_step_other d r k :
  k <> key r -> get k (step d r) = get k d.
Proof.
  intro Hne. unfold group_step, PyDict.mem.
  rewrite get_adjust_other by assumption.
  destruct (get (key r) d); [reflexivity|].
  now apply get_set_item_other.
Qed.

Lemma keys_group_step d r :
  PyDict.keys (step d r) =
  if PyDict.mem eqb (key r) d then PyDict.keys d
  else (PyDict.keys d ++ [key r])%list.
Proof.
  unfold PyDict.mem. destruct (get (key r) d) as [v|] eqn:E.
  - destruct (group_step_present d r v E) as (l1 & l2 & Hd & _ & Hs).
    rewrite Hs, Hd. unfold PyDict.keys. now rewrite !map_app.
  - rewrite (group_step_absent d r E). unfold PyDict.keys.
    now rewrite map_app.
Qed.

Lemma group_fold_snoc rows r :
  gfold (rows ++ [r]) = step (gfold rows) r.
Proof. unfold group_fold. now rewrite fold_left_app. Qed.

Lemma nodup_keys_group_fold rows : NoDup (PyDict.keys (gfold rows)).
Proof.
  induction rows as [|r rows IH] using rev_ind.
  - constructor.
  - rewrite group_fold_snoc, keys_group_step. unfold PyDict.mem.
    destruct (get (key r) (gfold rows)) eqn:E; [exact IH|].
    apply NoDup_app; [exact IH | repeat constructor; auto |].
    intros k Hin [Hk|[]]. subst k.
    apply (in_keys_get eqb eqb_eq) in Hin. contradiction.
Qed.

Lemma group_rows_snoc k rows r :
  rows_of k (rows ++ [r]) =
  (rows_of k rows ++ (if eqb k (key r) then [r] else []))%list.
Proof. unfold group_rows. now rewrite filter_app. Qed.

Lemma get_group_fold rows k :
  get k (gfold rows) =
  match rows_of k rows with
  | [] => None
  | r0 :: g => Some (built (r0 :: g) r0)
  end.
Proof.
  induction rows as [|r rows IH] using rev_ind; [reflexivity|].
  rewrite group_fold_snoc, group_rows_snoc.
  destruct (eqb k (key r)) eqn:E.
  - apply eqb_eq in E. subst k. rewrite get_group_step_same, IH.
    destruct (rows_of (key r) rows) as [|r0 g]; [reflexivity|].
    simpl. rewrite fold_left_app. reflexivity.
  - rewrite app_nil_r, get_group_step_other; [exact IH|].
    intro H. subst k. rewrite (eqb_refl eqb eqb_eq) in E. discriminate.
Qed.

Lemma in_group_fold rows k v :
  In (k, v) (gfold rows) <->
  exists r0 g, rows_of k rows = r0 :: g /\ v = built (r0 :: g) r0.
Proof.
  rewrite (in_get eqb eqb_eq) by apply nodup_keys_group_fold.
  rewrite get_group_fold.
  destruct (rows_of k rows) as [|r0 g].
  - split; [discriminate | intros (? & ? & H & _); discriminate].
  - split.
    + intro H. injection H as <-. eauto.
    + intros (r1 & g1 & H & ->). injection H as <- <-. reflexivity.
Qed.

Lemma in_keys_group_fold rows k :
  In k (PyDict.keys (gfold rows)) <-> exists r, In r rows /\ key r = k.
Proof.
  rewrite (in_keys_get eqb eqb_eq), get_group_fold.
  destruct (rows_of k rows) as [|r0 g] eqn:E.
  - split; [congruence|]. intros (r & Hin & Hk). exfalso.
    assert (H : In r (rows_of k rows)).
    { apply filter_In. split; [exact Hin|]. subst k. apply (eqb_refl eqb eqb_eq). }
    rewrite E in H. exact H.
  - split; [|discriminate]. intros _.
    assert (H : In r0 (rows_of k rows)) by (rewrite E; now left).
    apply filter_In in H. destruct H as [Hin Hk]. apply eqb_eq in Hk.
    exists r0. auto.
Qed.

Lemma total_group_step (m : V -> nat) d r :
  (forall r v, m (upd r v) = S (m v)) ->
  (forall r, m (new r) = 0) ->
  list_sum (map m (PyDict.values (step d r))) =
  S (list_sum (map m (PyDict.values d))).
Proof.
  intros Hupd Hnew. destruct (get (key r) d) as [v|] eqn:E.
  - destruct (group_step_present d r v E) as (l1 & l2 & Hd & _ & Hs).
    rewrite Hs, Hd. unfold PyDict.values.
    rewrite !map_app, !list_sum_app. simpl. rewrite Hupd. lia.
  - rewrite (group_step_absent d r E). unfold PyDict.values.
    rewrite !map_app, !list_sum_app. simpl. rewrite Hupd, Hnew. lia.
Qed.

Lemma total_fold_left (m : V -> nat) rows d :
  (forall r v, m (upd r v) = S (m v)) ->
  (forall r, m (new r) = 0) ->
  list_sum (map m (PyDict.values (fold_left step rows d))) =
  List.length rows + list_sum (map m (PyDict.values d)).
Proof.
  intros Hupd Hnew. revert d.
  induction rows as [|r rows IH]; intro d; simpl; [reflexivity|].
  rewrite IH, total_group_step by assumption. lia.
Qed.
End GroupFacts.

(** ** The index loop *)

Lemma map_values_keys {K V : Type} (f : V -> K) (d : list (K * V)) :
  (forall k v, In (k, v) d -> f v = k) ->
  map f (PyDict.values d) = PyDict.keys d.
Proof.
  induction d as [|[k v] t IH]; simpl; intro H; [reflexivity|].
  rewrite (H k v) by now left. f_equal. apply IH.
  intros k' v' Hin. apply H. now right.
Qed.

Lemma in_values {K V : Type} (v : V) (d : list (K * V)) :
  In v (PyDict.values d) <-> exists k, In (k, v) d.
Proof.
  unfold PyDict.values. rewrite in_map_iff. split.
  - intros ([k v'] & Hv & Hin). simpl in Hv. subst v'. eauto.
  - intros (k & Hin). exists (k, v). auto.
Qed.

Lemma index_fold_group rows :
  index_fold rows =
  group_fold String.eqb index_key index_new
    (fun r => index_append (index_column r)) rows.
Proof. reflexivity. Qed.

Lemma index_built g d :
  fold_left (fun v r => index_append (index_column r) v) g d =
  {| idx_name := idx_name d;
     is_primary_or_unique := is_primary_or_unique d;
     idx_columns := idx_columns d ++ map index_column g |}.
Proof.
  revert d. induction g as [|r g IH]; intro d; simpl.
  - rewrite app_nil_r. now destruct d.
  - rewrite IH. simpl. now rewrite <- app_assoc.
Qed.

Lemma group_rows_head {K R : Type} (eqb : K -> K -> bool)
  (eqb_eq : forall a b, eqb a b = true <-> a = b) (key : R -> K)
  k rows r0 g :
  group_rows eqb key k rows = r0 :: g -> In r0 rows /\ key r0 = k.
Proof.
  intro E.
  assert (H : In r0 (group_rows eqb key k rows)) by (rewrite E; now left).
  apply filter_In in H. destruct H as [Hin Hk].
  apply eqb_eq in Hk. auto.
Qed.

(** The entries of the index dictionary: one per key, holding the rows of
    that key in input order and the flag of the first of them. *)
Lemma in_index_fold rows k d :
  In (k, d) (index_fold rows) <->
  exists r0 g,
    group_rows String.eqb index_key k rows = r0 :: g /\
    d = {| idx_name := k;
           is_primary_or_unique := py_bool (ix_IS_PRIMARY_OR_UNIQUE r0);
           idx_columns := map index_column (r0 :: g) |}.
Proof.
  rewrite index_fold_group, (in_group_fold _ String.eqb_eq).
  split; intros (r0 & g & E & ->); exists r0, g; (split; [exact E|]);
    rewrite index_built; simpl;
    destruct (group_rows_head _ String.eqb_eq _ _ _ _ _ E) as [_ <-];
    reflexivity.
Qed.

Lemma index_names_keys rows :
  map idx_name (PyDict.values (index_fold rows)) =
  PyDict.keys (index_fold rows).
Proof.
  apply map_values_keys. intros k d H.
  apply in_index_fold in H. destruct H as (r0 & g & _ & ->). reflexivity.
Qed.

(** C3.  The index fold yields one descriptor per distinct index-name key;
    the descriptor of a name holds the column entries of all rows of that
    name, in input order; its [is_primary_or_unique] flag is the flag of the
    first row of that name; and a later row of a known name leaves the flag
    as it is. *)
Theorem index_fold_one_descriptor_per_name (rows : list idx_row) :
  let ds := PyDict.values (index_fold rows) in
  NoDup (map idx_name ds) /\
  (forall n, In n (map idx_name ds) <->
             exists r, In r rows /\ index_key r = n) /\
  (forall d, In d ds ->
     exists r0 g,
       group_rows String.eqb index_key (idx_name d) rows = r0 :: g /\
       idx_columns d = map index_column (r0 :: g) /\
       is_primary_or_unique d = py_bool (ix_IS_PRIMARY_OR_UNIQUE r0)) /\
  (forall acc row d,
     PyDict.get String.eqb (index_key row) acc = Some d ->
     PyDict.get String.eqb (index_key row) (index_step acc row) =
     Some (index_append (index_column row) d) /\
     is_primary_or_unique (index_append (index_column row) d) =
     is_primary_or_unique d).
Proof.
  cbv zeta. rewrite index_names_keys, index_fold_group.
  split; [|split; [|split]].
  - apply nodup_keys_group_fold, String.eqb_eq.
  - intro n. apply (in_keys_group_fold _ String.eqb_eq).
  - intros d H. apply in_values in H. destruct H as (k & H).
    rewrite <- index_fold_group in H.
    apply in_index_fold in H. destruct H as (r0 & g & E & ->).
    exists r0, g. auto.
  - intros acc row d H. split; [|reflexivity].
    change (index_step acc row) with
      (group_step String.eqb index_key index_new
         (fun r => index_append (index_column r)) acc row).
    rewrite (get_group_step_same String.eqb String.eqb_eq). now rewrite H.
Qed.

(** C5.  A row whose index name is null or empty is keyed by the literal
    ["(unnamed)"]; whatever the rows, at most one descriptor bears that
    name, and it holds the column entries of every such row. *)
Theorem unnamed_rows_share_one_descriptor (rows : list idx_row) :
  (forall r, ix_INDEX_NAME r = None \/ ix_INDEX_NAME r = Some "" ->
             index_key r = "(unnamed)") /\
  (forall r, In r rows ->
     ix_INDEX_NAME r = None \/ ix_INDEX_NAME r = Some "" ->
     exists d l1 l2,
       PyDict.values (index_fold rows) = (l1 ++ d :: l2)%list /\
       idx_name d = "(unnamed)" /\
       (forall d', In d' (l1 ++ l2) -> idx_name d' <> "(unnamed)") /\
       In (index_column r) (idx_columns d) /\
       idx_columns d =
       map index_column
         (filter (fun r' => String.eqb "(unnamed)" (index_key r')) rows)).
Proof.
  assert (Hkey : forall r, ix_INDEX_NAME r = None \/ ix_INDEX_NAME r = Some "" ->
                           index_key r = "(unnamed)").
  { intros r [H|H]; unfold index_key; now rewrite H. }
  split; [exact Hkey|].
  intros r Hin Hnull. specialize (Hkey r Hnull).
  assert (Hk : In "(unnamed)" (PyDict.keys (index_fold rows))).
  { rewrite index_fold_group. apply (in_keys_group_fold _ String.eqb_eq).
    exists r. auto. }
  pose proof (nodup_keys_group_fold String.eqb String.eqb_eq index_key
                index_new (fun r => index_append (index_column r)) rows)
    as Hnd.
  rewrite <- index_fold_group in Hnd.
  rewrite <- index_names_keys in Hnd, Hk.
  apply in_map_iff in Hk. destruct Hk as (d & Hname & Hd).
  destruct (in_split _ _ Hd) as (l1 & l2 & Hsplit).
  exists d, l1, l2. split; [exact Hsplit|]. split; [exact Hname|].
  rewrite Hsplit, map_app in Hnd. simpl in Hnd.
  apply NoDup_remove_2 in Hnd. rewrite Hname in Hnd. split.
  - intros d' Hd' Heq. apply Hnd. rewrite <- map_app, <- Heq.
    now apply in_map.
  - apply in_values in Hd. destruct Hd as (k & Hd).
    apply in_index_fold in Hd. destruct Hd as (r0 & g & E & ->).
    simpl in Hname. subst k. cbn [idx_columns].
    unfold group_rows in E. rewrite E. split; [|reflexivity].
    apply in_map. rewrite <- E. apply filter_In. split; [exact Hin|].
    rewrite Hkey. reflexivity.
Qed.

(** ** The foreign-key loop *)

Lemma fk_fold_left_outbound rows st :
  outbound (fold_left fk_step rows st) =
  fold_left outbound_step rows (outbound st).
Proof.
  revert st. induction rows as [|r rows IH]; intro st; simpl; [reflexivity|].
  now rewrite IH.
Qed.

Lemma fk_fold_left_inbound rows st :
  inbound (fold_left fk_step rows st) =
  fold_left inbound_step rows (inbound st).
Proof.
  revert st. induction rows as [|r rows IH]; intro st; simpl; [reflexivity|].
  now rewrite IH.
Qed.

Lemma fk_fold_outbound rows :
  outbound (fk_fold rows) =
  group_fold opt_eqb ku_CONSTRAINT_NAME outbound_new
    (fun r => outbound_append (fk_column r)) rows.
Proof. unfold fk_fold. now rewrite fk_fold_left_outbound. Qed.

Lemma fk_fold_inbound rows :
  inbound (fk_fold rows) =
  group_fold String.eqb inbound_key inbound_new
    (fun r => inbound_append (fk_column r)) rows.
Proof. unfold fk_fold. now rewrite fk_fold_left_inbound. Qed.

Lemma outbound_built g d :
  fold_left (fun v r => outbound_append (fk_column r) v) g d =
  {| ob_name := ob_name d;
     target_schema := target_schema d;
     target_table := target_table d;
     ob_columns := ob_columns d ++ map fk_column g |}.
Proof.
  revert d. induction g as [|r g IH]; intro d; simpl.
  - rewrite app_nil_r. now destruct d.
  - rewrite IH. simpl. now rewrite <- app_assoc.
Qed.

Lemma inbound_built g d :
  fold_left (fun v r => inbound_append (fk_column r) v) g d =
  {| ib_name := ib_name d;
     source_schema := source_schema d;
     source_table := source_table d;
     ib_columns := ib_columns d ++ map fk_column g |}.
Proof.
  revert d. induction g as [|r g IH]; intro d; simpl.
  - rewrite app_nil_r. now destruct d.
  - rewrite IH. simpl. now rewrite <- app_assoc.
Qed.

(** The step of a grouping loop touches one descriptor: the one under the
    row's key, created on the spot when the key is new. *)
Lemma group_step_one_entry {K V R : Type} (eqb : K -> K -> bool)
  (eqb_eq : forall a b, eqb a b = true <-> a = b)
  (key : R -> K) (new : R -> V) (upd : R -> V -> V) d r :
  exists l1 v l2,
    group_step eqb key new upd d r = (l1 ++ (key r, upd r v) :: l2)%list /\
    (d = (l1 ++ (key r, v) :: l2)%list \/
     (d = l1 /\ l2 = [] /\ v = new r)).
Proof.
  destruct (PyDict.get eqb (key r) d) as [v|] eqn:E.
  - destruct (group_step_present eqb eqb_eq key new upd d r v E)
      as (l1 & l2 & Hd & _ & Hs).
    exists l1, v, l2. auto.
  - exists d, (new r), []. split; [|auto].
    now apply group_step_absent.
Qed.

(** C1.  Each key-usage row adds one [{column, references}] entry to one
    outbound descriptor and one to one inbound descriptor, every other
    descriptor being left as it was; hence the outbound descriptors hold as
    many column entries as there are rows, and so do the inbound ones. *)
Theorem fk_fold_one_entry_per_row (rows : list fk_row) :
  total_entries ob_columns (PyDict.values (outbound (fk_fold rows))) =
  List.length rows /\
  total_entries ib_columns (PyDict.values (inbound (fk_fold rows))) =
  List.length rows /\
  (forall st row, exists l1 d l2,
     outbound (fk_step st row) =
     (l1 ++ (ku_CONSTRAINT_NAME row,
             outbound_append (fk_column row) d) :: l2)%list /\
     (outbound st = (l1 ++ (ku_CONSTRAINT_NAME row, d) :: l2)%list \/
      (outbound st = l1 /\ l2 = [] /\ d = outbound_new row))) /\
  (forall st row, exists l1 d l2,
     inbound (fk_step st row) =
     (l1 ++ (inbound_key row,
             inbound_append (fk_column row) d) :: l2)%list /\
     (inbound st = (l1 ++ (inbound_key row, d) :: l2)%list \/
      (inbound st = l1 /\ l2 = [] /\ d = inbound_new row))).
Proof.
  split; [|split; [|split]].
  - unfold fk_fold, total_entries. rewrite fk_fold_left_outbound.
    change outbound_step with
      (group_step opt_eqb ku_CONSTRAINT_NAME outbound_new
         (fun r => outbound_append (fk_column r))).
    rewrite (total_fold_left opt_eqb opt_eqb_eq); simpl; [lia| |reflexivity].
    intros r v. rewrite length_app. simpl. lia.
  - unfold fk_fold, total_entries. rewrite fk_fold_left_inbound.
    change inbound_step with
      (group_step String.eqb inbound_key inbound_new
         (fun r => inbound_append (fk_column r))).
    rewrite (total_fold_left String.eqb String.eqb_eq); simpl;
      [lia| |reflexivity].
    intros r v. rewrite length_app. simpl. lia.
  - intros st row.
    apply (group_step_one_entry opt_eqb opt_eqb_eq ku_CONSTRAINT_NAME
             outbound_new (fun r => outbound_append (fk_column r))).
  - intros st row.
    apply (group_step_one_entry String.eqb String.eqb_eq inbound_key
             inbound_new (fun r => inbound_append (fk_column r))).
Qed.

Lemma in_outbound rows k d :
  In (k, d) (outbound (fk_fold rows)) <->
  exists r0 g,
    group_rows opt_eqb ku_CONSTRAINT_NAME k rows = r0 :: g /\
    d = {| ob_name := ku_CONSTRAINT_NAME r0;
           target_schema := ku_REFERENCED_TABLE_SCHEMA r0;
           target_table := ku_REFERENCED_TABLE_NAME r0;
           ob_columns := map fk_column (r0 :: g) |}.
Proof.
  rewrite fk_fold_outbound, (in_group_fold _ opt_eqb_eq).
  split; intros (r0 & g & E & ->); exists r0, g; (split; [exact E|]);
    rewrite outbound_built; reflexivity.
Qed.

Lemma in_inbound rows k d :
  In (k, d) (inbound (fk_fold rows)) <->
  exists r0 g,
    group_rows String.eqb inbound_key k rows = r0 :: g /\
    d = {| ib_name := ku_CONSTRAINT_NAME r0;
           source_schema := ku_TABLE_SCHEMA r0;
           source_table := ku_TABLE_NAME r0;
           ib_columns := map fk_column (r0 :: g) |}.
Proof.
  rewrite fk_fold_inbound, (in_group_fold _ String.eqb_eq).
  split; intros (r0 & g & E & ->); exists r0, g; (split; [exact E|]);
    rewrite inbound_built; reflexivity.
Qed.

(** C9.  An outbound descriptor takes [name], [target_schema] and
    [target_table] from the first row seen with its constraint name, and an
    inbound descriptor takes [name], [source_schema] and [source_table] from
    the first row seen with its key; a later row of the same name (or key),
    whatever it references, only appends to [columns]. *)
Theorem fk_descriptor_fields_from_first_row (rows : list fk_row) :
  (forall d, In d (PyDict.values (outbound (fk_fold rows))) ->
     exists r0 g,
       group_rows opt_eqb ku_CONSTRAINT_NAME (ob_name d) rows = r0 :: g /\
       ob_name d = ku_CONSTRAINT_NAME r0 /\
       target_schema d = ku_REFERENCED_TABLE_SCHEMA r0 /\
       target_table d = ku_REFERENCED_TABLE_NAME r0 /\
       ob_columns d = map fk_column (r0 :: g)) /\
  (forall d, In d (PyDict.values (inbound (fk_fold rows))) ->
     exists k r0 g,
       group_rows String.eqb inbound_key k rows = r0 :: g /\
       ib_name d = ku_CONSTRAINT_NAME r0 /\
       source_schema d = ku_TABLE_SCHEMA r0 /\
       source_table d = ku_TABLE_NAME r0 /\
       ib_columns d = map fk_column (r0 :: g)) /\
  (forall acc row d,
     PyDict.get opt_eqb (ku_CONSTRAINT_NAME row) acc = Some d ->
     PyDict.get opt_eqb (ku_CONSTRAINT_NAME row) (outbound_step acc row) =
     Some {| ob_name := ob_name d;
             target_schema := target_schema d;
             target_table := target_table d;
             ob_columns := ob_columns d ++ [fk_column row] |}) /\
  (forall acc row d,
     PyDict.get String.eqb (inbound_key row) acc = Some d ->
     PyDict.get String.eqb (inbound_key row) (inbound_step acc row) =
     Some {| ib_name := ib_name d;
             source_schema := source_schema d;
             source_table := source_table d;
             ib_columns := ib_columns d ++ [fk_column row] |}).
Proof.
  split; [|split; [|split]].
  - intros d H. apply in_values in H. destruct H as (k & H).
    apply in_outbound in H. destruct H as (r0 & g & E & ->).
    destruct (group_rows_head _ opt_eqb_eq _ _ _ _ _ E) as [_ Hk].
    exists r0, g. cbn [ob_name target_schema target_table ob_columns].
    rewrite Hk. auto.
  - intros d H. apply in_values in H. destruct H as (k & H).
    apply in_inbound in H. destruct H as (r0 & g & E & ->).
    exists k, r0, g. auto.
  - intros acc row d H.
    change (outbound_step acc row) with
      (group_step opt_eqb ku_CONSTRAINT_NAME outbound_new
         (fun r => outbound_append (fk_column r)) acc row).
    rewrite (get_group_step_same opt_eqb opt_eqb_eq). now rewrite H.
  - intros acc row d H.
    change (inbound_step acc row) with
      (group_step String.eqb inbound_key inbound_new
         (fun r => inbound_append (fk_column r)) acc row).
    rewrite (get_group_step_same String.eqb String.eqb_eq). now rewrite H.
Qed.

(** ** The inbound key *)

Lemma string_length_append (a b : string) :
  String.length (a ++ b) = String.length a + String.length b.
Proof. induction a as [|c a IH]; simpl; [reflexivity | now rewrite IH]. Qed.

Lemma string_append_cancel_r (a a' t : string) :
  a ++ t = a' ++ t -> a = a'.
Proof.
  revert a'. induction a as [|c a IH]; intros [|c' a'] H; simpl in H.
  - reflexivity.
  - exfalso. apply (f_equal String.length) in H. simpl in H.
    rewrite string_length_append in H. lia.
  - exfalso. apply (f_equal String.length) in H. simpl in H.
    rewrite string_length_append in H. lia.
  - injection H as -> H. f_equal. now apply IH.
Qed.

Lemma split_at_first_dot (a a' b b' : string) :
  dot_free a = true -> dot_free a' = true ->
  a ++ "." ++ b = a' ++ "." ++ b' -> a = a' /\ b = b'.
Proof.
  revert a'. induction a as [|c a IH]; intros [|c' a'] Ha Ha' H;
    simpl in H, Ha, Ha'.
  - injection H as ->. auto.
  - injection H as <- _. simpl in Ha'. discriminate.
  - injection H as -> _. simpl in Ha. discriminate.
  - injection H as -> H.
    apply andb_true_iff in Ha, Ha'.
    destruct (IH a' (proj2 Ha) (proj2 Ha') H) as [-> ->]. auto.
Qed.

(** Where no referenced schema or table name holds a ["."], equal keys
    mean equal (formatted) components. *)
Lemma inbound_key_dot_free_inj (r1 r2 : fk_row) :
  dot_free (py_str (ku_REFERENCED_TABLE_SCHEMA r1)) = true ->
  dot_free (py_str (ku_REFERENCED_TABLE_SCHEMA r2)) = true ->
  dot_free (py_str (ku_REFERENCED_TABLE_NAME r1)) = true ->
  dot_free (py_str (ku_REFERENCED_TABLE_NAME r2)) = true ->
  inbound_key r1 = inbound_key r2 ->
  py_str (ku_REFERENCED_TABLE_SCHEMA r1) =
  py_str (ku_REFERENCED_TABLE_SCHEMA r2) /\
  py_str (ku_REFERENCED_TABLE_NAME r1) =
  py_str (ku_REFERENCED_TABLE_NAME r2) /\
  py_str (ku_CONSTRAINT_NAME r1) = py_str (ku_CONSTRAINT_NAME r2).
Proof.
  unfold inbound_key. intros Hs1 Hs2 Ht1 Ht2 H.
  apply split_at_first_dot in H; [|assumption|assumption].
  destruct H as [Hs H]. split; [exact Hs|].
  apply split_at_first_dot in H; assumption.
Qed.

(** Two rows that reference tables of the same name under the same
    constraint name, in different schemas, never share a key. *)
Lemma inbound_key_differs_by_schema (r1 r2 : fk_row) :
  py_str (ku_REFERENCED_TABLE_SCHEMA r1) <>
  py_str (ku_REFERENCED_TABLE_SCHEMA r2) ->
  py_str (ku_REFERENCED_TABLE_NAME r1) =
  py_str (ku_REFERENCED_TABLE_NAME r2) ->
  py_str (ku_CONSTRAINT_NAME r1) = py_str (ku_CONSTRAINT_NAME r2) ->
  inbound_key r1 <> inbound_key r2.
Proof.
  unfold inbound_key. intros Hs Ht Hn H. apply Hs.
  rewrite Ht, Hn in H. now apply string_append_cancel_r in H.
Qed.

(** The inbound dictionary holds, under the key of a row, the columns of
    the rows of that key, and rows of different keys share no group. *)
Lemma inbound_entry_of_row rows r :
  In r rows ->
  exists d,
    PyDict.get String.eqb (inbound_key r) (inbound (fk_fold rows)) = Some d /\
    ib_columns d =
    map fk_column (group_rows String.eqb inbound_key (inbound_key r) rows).
Proof.
  intro Hin. rewrite fk_fold_inbound, (get_group_fold _ String.eqb_eq).
  destruct (group_rows String.eqb inbound_key (inbound_key r) rows)
    as [|r0 g] eqn:E.
  - exfalso.
    assert (H : In r (group_rows String.eqb inbound_key (inbound_key r) rows)).
    { apply filter_In. split; [exact Hin | apply String.eqb_refl]. }
    rewrite E in H. exact H.
  - eexists. split; [reflexivity|]. rewrite inbound_built. reflexivity.
Qed.

(** C2, on the code.  The claim asks that rows whose
    (referenced_schema, referenced_table, constraint_name) triples differ
    land in different inbound descriptors.  Line 167 joins the three values
    with dots and does not escape a dot inside them: the constraint
    [eu.fk_parent] on [shop.orders] and the constraint [fk_parent] on
    [shop.`orders.eu`], both declared on [shop.child], differ in table and
    in name, get the one key ["shop.orders.eu.fk_parent"], and the fold
    mixes their columns in a single inbound descriptor, while the outbound
    side keeps them apart. *)
Theorem inbound_key_merges_dotted_names :
  map (fun r => (ku_REFERENCED_TABLE_SCHEMA r, ku_REFERENCED_TABLE_NAME r,
                 ku_CONSTRAINT_NAME r)) dotted_fk_rows =
  [ (Some "shop", Some "orders", Some "eu.fk_parent");
    (Some "shop", Some "orders.eu", Some "fk_parent") ] /\
  map inbound_key dotted_fk_rows =
  ["shop.orders.eu.fk_parent"; "shop.orders.eu.fk_parent"] /\
  PyDict.values (inbound (fk_fold dotted_fk_rows)) =
  [ {| ib_name := Some "eu.fk_parent";
       source_schema := Some "shop";
       source_table := Some "child";
       ib_columns := [ {| fc_column := Some "eu_order_id";
                          fc_references := Some "id" |};
                       {| fc_column := Some "order_id";
                          fc_references := Some "id" |} ] |} ] /\
  map ob_name (PyDict.values (outbound (fk_fold dotted_fk_rows))) =
  [Some "eu.fk_parent"; Some "fk_parent"].
Proof. repeat split; reflexivity. Qed.

(** ** Insertion sort *)

Section SortFacts.
Context {A : Type}.
Variable le : A -> A -> bool.
Hypothesis le_total : forall x y, le x y = false -> le y x = true.
Hypothesis le_trans :
  forall x y z, le x y = true -> le y z = true -> le x z = true.

Local Abbreviation R := (fun x y => le x y = true).

Lemma insert_by_perm x l : Permutation (x :: l) (insert_by le x l).
Proof.
  induction l as [|y t IH]; simpl; [reflexivity|].
  destruct (le x y); [reflexivity|].
  etransitivity; [apply perm_swap|]. now constructor.
Qed.

Lemma sort_by_perm l : Permutation l (sort_by le l).
Proof.
  induction l as [|x t IH]; simpl; [reflexivity|].
  etransitivity; [|apply insert_by_perm]. now constructor.
Qed.

Lemma insert_by_sorted x l :
  StronglySorted R l -> StronglySorted R (insert_by le x l).
Proof.
  induction l as [|y t IH]; simpl; intro Hs.
  - repeat constructor.
  - inversion Hs as [|? ? Ht Hy]; subst.
    destruct (le x y) eqn:E.
    + constructor; [exact Hs|]. constructor; [exact E|].
      eapply Forall_impl; [|exact Hy]. intros z Hz. now apply (le_trans x y z).
    + constructor; [now apply IH|].
      apply Forall_forall. intros z Hz.
      apply (Permutation_in z (Permutation_sym (insert_by_perm x t))) in Hz.
      destruct Hz as [<-|Hz]; [now apply le_total|].
      rewrite Forall_forall in Hy. now apply Hy.
Qed.

Lemma sort_by_sorted l : StronglySorted R (sort_by le l).
Proof.
  induction l as [|x t IH]; simpl; [constructor|].
  now apply insert_by_sorted.
Qed.

(** A list has one sorted arrangement, as long as elements that compare
    both ways are equal. *)
Lemma sorted_perm_unique l1 l2 :
  StronglySorted R l1 -> StronglySorted R l2 -> Permutation l1 l2 ->
  (forall x y, In x l1 -> In y l1 ->
               le x y = true -> le y x = true -> x = y) ->
  l1 = l2.
Proof.
  revert l2. induction l1 as [|a t IH]; intros l2 H1 H2 Hp Hanti.
  - apply Permutation_nil in Hp. now subst.
  - destruct l2 as [|b u].
    + apply Permutation_sym, Permutation_nil in Hp. discriminate.
    + inversion H1 as [|? ? Ht Ha]; subst.
      inversion H2 as [|? ? Hu Hb]; subst.
      rewrite Forall_forall in Ha, Hb.
      assert (Hab : a = b).
      { assert (Hina : In a (b :: u))
          by (apply (Permutation_in a Hp); now left).
        assert (Hinb : In b (a :: t))
          by (apply (Permutation_in b (Permutation_sym Hp)); now left).
        destruct Hina as [->|Hina]; [reflexivity|].
        destruct Hinb as [->|Hinb]; [reflexivity|].
        apply Hanti; [now left | now right | now apply Ha | now apply Hb]. }
      subst b. f_equal. apply Permutation_cons_inv in Hp.
      apply IH; try assumption.
      intros x y Hx Hy. apply Hanti; now right.
Qed.
End SortFacts.

Lemma filter_perm {A : Type} (f : A -> bool) (l l' : list A) :
  Permutation l l' -> Permutation (filter f l) (filter f l').
Proof.
  induction 1 as [|x l l' _ IH|x y l|l l' l'' _ IH1 _ IH2]; simpl.
  - reflexivity.
  - destruct (f x); [now constructor | exact IH].
  - destruct (f x), (f y); try reflexivity. apply perm_swap.
  - now transitivity (filter f l').
Qed.

Lemma filter_sorted {A : Type} (Rel : A -> A -> Prop) (f : A -> bool) l :
  StronglySorted Rel l -> StronglySorted Rel (filter f l).
Proof.
  induction 1 as [|a l Hs IH Ha]; simpl; [constructor|].
  destruct (f a); [|exact IH]. constructor; [exact IH|].
  rewrite Forall_forall in *. intros x Hx. apply Ha.
  apply filter_In in Hx. tauto.
Qed.

(** ** The two orders of the order-independence property *)

Lemma column_le_total c1 c2 : column_le c1 c2 = false -> column_le c2 c1 = true.
Proof. unfold column_le. rewrite Z.leb_gt, Z.leb_le. lia. Qed.

Lemma column_le_trans c1 c2 c3 :
  column_le c1 c2 = true -> column_le c2 c3 = true -> column_le c1 c3 = true.
Proof. unfold column_le. rewrite !Z.leb_le. lia. Qed.

Lemma row_le_iff r1 r2 :
  row_le r1 r2 = true <->
  String_as_OT.lt (index_key r1) (index_key r2) \/
  (index_key r1 = index_key r2 /\
   (ix_SEQ_IN_INDEX r1 <= ix_SEQ_IN_INDEX r2)%Z).
Proof.
  unfold row_le.
  destruct (String_as_OT.compare_spec (index_key r1) (index_key r2))
    as [Heq|Hlt|Hgt].
  - rewrite Z.leb_le. split; [auto|].
    intros [H|[_ H]]; [|exact H].
    rewrite Heq in H. exfalso. exact (irreflexivity H).
  - split; auto.
  - split; [discriminate|].
    intros [H|[H _]]; exfalso.
    + exact (irreflexivity (transitivity H Hgt)).
    + rewrite H in Hgt. exact (irreflexivity Hgt).
Qed.

Lemma row_le_total r1 r2 : row_le r1 r2 = false -> row_le r2 r1 = true.
Proof.
  intro H. apply row_le_iff.
  assert (Hn : ~ (row_le r1 r2 = true)) by congruence.
  rewrite row_le_iff in Hn.
  destruct (String_as_OT.compare_spec (index_key r1) (index_key r2))
    as [Heq|Hlt|Hgt].
  - right. split; [auto|].
    destruct (Z.le_gt_cases (ix_SEQ_IN_INDEX r2) (ix_SEQ_IN_INDEX r1));
      [assumption|]. exfalso. apply Hn. right. split; [exact Heq | lia].
  - exfalso. apply Hn. now left.
  - now left.
Qed.

Lemma row_le_trans r1 r2 r3 :
  row_le r1 r2 = true -> row_le r2 r3 = true -> row_le r1 r3 = true.
Proof.
  rewrite !row_le_iff.
  intros [H12|[E12 S12]] [H23|[E23 S23]].
  - left. exact (transitivity H12 H23).
  - left. now rewrite <- E23.
  - left. now rewrite E12.
  - right. split; [congruence | lia].
Qed.

(** ** Order independence of the index grouping *)

Lemma nodup_index_names rows :
  NoDup (map idx_name (PyDict.values (index_fold rows))).
Proof.
  rewrite index_names_keys, index_fold_group.
  apply nodup_keys_group_fold, String.eqb_eq.
Qed.

Lemma in_group_rows k (rows : list idx_row) r :
  In r (group_rows String.eqb index_key k rows) <->
  In r rows /\ index_key r = k.
Proof.
  unfold group_rows. rewrite filter_In, String.eqb_eq.
  split; intros [H1 H2]; auto.
Qed.

Lemma group_columns_sorted k (g : list idx_row) :
  StronglySorted (fun x y => row_le x y = true) g ->
  (forall r, In r g -> index_key r = k) ->
  StronglySorted (fun x y => column_le x y = true) (map index_column g).
Proof.
  induction 1 as [|a l Hs IH Ha]; simpl; intro Hk; [constructor|].
  constructor.
  - apply IH. intros r Hr. apply Hk. now right.
  - rewrite Forall_forall in *. intros c Hc.
    apply in_map_iff in Hc. destruct Hc as (r & <- & Hr).
    specialize (Ha r Hr). apply row_le_iff in Ha.
    unfold column_le. simpl. apply Z.leb_le.
    destruct Ha as [Hlt|[_ Hle]]; [|exact Hle].
    rewrite (Hk a), (Hk r) in Hlt by (simpl; auto).
    exfalso. exact (irreflexivity Hlt).
Qed.

Section OrderIndependence.
Variables rows rows' : list idx_row.
Hypothesis Hperm : Permutation rows rows'.
Hypothesis Hflag :
  forall r1 r2, In r1 rows -> In r2 rows -> index_key r1 = index_key r2 ->
    py_bool (ix_IS_PRIMARY_OR_UNIQUE r1) = py_bool (ix_IS_PRIMARY_OR_UNIQUE r2).
Hypothesis Hseq :
  forall r1 r2, In r1 rows -> In r2 rows -> index_key r1 = index_key r2 ->
    ix_SEQ_IN_INDEX r1 = ix_SEQ_IN_INDEX r2 ->
    ix_COLUMN_NAME r1 = ix_COLUMN_NAME r2.

Local Abbreviation rows_of k l := (group_rows String.eqb index_key k l).

Lemma group_perm k :
  Permutation (rows_of k rows') (rows_of k (sort_by row_le rows)).
Proof.
  apply filter_perm. etransitivity; [apply Permutation_sym, Hperm|].
  apply sort_by_perm.
Qed.

Lemma group_columns_agree k :
  sort_by column_le (map index_column (rows_of k rows')) =
  map index_column (rows_of k (sort_by row_le rows)).
Proof.
  apply (sorted_perm_unique column_le).
  - apply sort_by_sorted; [apply column_le_total | apply column_le_trans].
  - apply group_columns_sorted with (k := k).
    + apply filter_sorted, sort_by_sorted;
        [apply row_le_total | apply row_le_trans].
    + intros r Hr. now apply in_group_rows in Hr.
  - etransitivity; [apply Permutation_sym, sort_by_perm|].
    apply Permutation_map, group_perm.
  - intros x y Hx Hy Hxy Hyx.
    apply (Permutation_in _ (Permutation_sym (sort_by_perm column_le _)))
      in Hx, Hy.
    apply in_map_iff in Hx, Hy.
    destruct Hx as (r1 & <- & H1), Hy as (r2 & <- & H2).
    apply in_group_rows in H1, H2. destruct H1 as [H1 K1], H2 as [H2 K2].
    apply (Permutation_in _ (Permutation_sym Hperm)) in H1, H2.
    unfold column_le in Hxy, Hyx. simpl in Hxy, Hyx.
    apply Z.leb_le in Hxy, Hyx.
    assert (Hs : ix_SEQ_IN_INDEX r1 = ix_SEQ_IN_INDEX r2) by lia.
    unfold index_column. rewrite Hs.
    now rewrite (Hseq r1 r2 H1 H2 (eq_trans K1 (eq_sym K2)) Hs).
Qed.

Lemma group_heads_agree k r0 g r1 g1 :
  rows_of k rows' = r0 :: g ->
  rows_of k (sort_by row_le rows) = r1 :: g1 ->
  py_bool (ix_IS_PRIMARY_OR_UNIQUE r0) = py_bool (ix_IS_PRIMARY_OR_UNIQUE r1).
Proof.
  intros E E1.
  destruct (group_rows_head _ String.eqb_eq _ _ _ _ _ E) as [H0 K0].
  destruct (group_rows_head _ String.eqb_eq _ _ _ _ _ E1) as [H1 K1].
  apply (Permutation_in _ (Permutation_sym Hperm)) in H0.
  apply (Permutation_in _ (Permutation_sym (sort_by_perm row_le rows))) in H1.
  apply Hflag; congruence.
Qed.

Lemma in_grouped_then_sorted d :
  In d (grouped_then_sorted rows') <->
  exists k r0 g,
    rows_of k rows' = r0 :: g /\
    d = {| idx_name := k;
           is_primary_or_unique := py_bool (ix_IS_PRIMARY_OR_UNIQUE r0);
           idx_columns := sort_by column_le (map index_column (r0 :: g)) |}.
Proof.
  unfold grouped_then_sorted. rewrite in_map_iff. split.
  - intros (d0 & <- & H). apply in_values in H. destruct H as (k & H).
    apply in_index_fold in H. destruct H as (r0 & g & E & ->).
    exists k, r0, g. auto.
  - intros (k & r0 & g & E & ->).
    exists {| idx_name := k;
              is_primary_or_unique := py_bool (ix_IS_PRIMARY_OR_UNIQUE r0);
              idx_columns := map index_column (r0 :: g) |}.
    split; [reflexivity|]. apply in_values. exists k.
    apply in_index_fold. eauto.
Qed.

Lemma in_sorted_then_grouped d :
  In d (sorted_then_grouped rows) <->
  exists k r1 g1,
    rows_of k (sort_by row_le rows) = r1 :: g1 /\
    d = {| idx_name := k;
           is_primary_or_unique := py_bool (ix_IS_PRIMARY_OR_UNIQUE r1);
           idx_columns := map index_column (r1 :: g1) |}.
Proof.
  unfold sorted_then_grouped. rewrite in_values. split.
  - intros (k & H). apply in_index_fold in H. eauto.
  - intros (k & r1 & g1 & E & ->). exists k. apply in_index_fold. eauto.
Qed.

Lemma same_descriptors d :
  In d (grouped_then_sorted rows') <-> In d (sorted_then_grouped rows).
Proof.
  rewrite in_grouped_then_sorted, in_sorted_then_grouped. split.
  - intros (k & r0 & g & E & ->).
    destruct (rows_of k (sort_by row_le rows)) as [|r1 g1] eqn:E1.
    + pose proof (group_perm k) as P. rewrite E, E1 in P.
      apply Permutation_sym, Permutation_nil in P. discriminate.
    + exists k, r1, g1. split; [exact E1|].
      rewrite (group_heads_agree k r0 g r1 g1 E E1).
      rewrite <- E, <- E1, group_columns_agree. reflexivity.
  - intros (k & r1 & g1 & E1 & ->).
    destruct (rows_of k rows') as [|r0 g] eqn:E.
    + pose proof (group_perm k) as P. rewrite E, E1 in P.
      apply Permutation_nil in P. discriminate.
    + exists k, r0, g. split; [exact E|].
      rewrite (group_heads_agree k r0 g r1 g1 E E1).
      rewrite <- E, <- E1, group_columns_agree. reflexivity.
Qed.
End OrderIndependence.

(** C4, amended.  Let the rows of one index name carry the same uniqueness
    flag and let rows of one index name that share a sequence-in-index name
    the same column.  Then folding any permutation of the rows and sorting
    each column list by sequence gives the descriptors of the fold of the
    rows sorted by (name, sequence), up to the order of the descriptors.
    Without the sort, a descriptor lists its columns in input order. *)
Theorem grouping_order_independent (rows rows' : list idx_row) :
  Permutation rows rows' ->
  (forall r1 r2, In r1 rows -> In r2 rows -> index_key r1 = index_key r2 ->
     py_bool (ix_IS_PRIMARY_OR_UNIQUE r1) =
     py_bool (ix_IS_PRIMARY_OR_UNIQUE r2)) ->
  (forall r1 r2, In r1 rows -> In r2 rows -> index_key r1 = index_key r2 ->
     ix_SEQ_IN_INDEX r1 = ix_SEQ_IN_INDEX r2 ->
     ix_COLUMN_NAME r1 = ix_COLUMN_NAME r2) ->
  Permutation (grouped_then_sorted rows') (sorted_then_grouped rows) /\
  (forall d, In d (PyDict.values (index_fold rows')) ->
     idx_columns d =
     map index_column
       (group_rows String.eqb index_key (idx_name d) rows')).
Proof.
  intros Hperm Hflag Hseq. split.
  - apply NoDup_Permutation.
    + apply (NoDup_map_inv idx_name). unfold grouped_then_sorted.
      rewrite map_map. simpl. apply nodup_index_names.
    + apply (NoDup_map_inv idx_name). apply nodup_index_names.
    + intro d. now apply same_descriptors.
  - intros d H. apply in_values in H. destruct H as (k & H).
    apply in_index_fold in H. destruct H as (r0 & g & E & ->).
    simpl. now rewrite E.
Qed.

(** C4, as stated, fails: two rows of one index with equal sequence numbers
    (here two unnamed indexes folded into one) keep their input order under
    a sort by sequence, so the two sides list the columns in different
    orders. *)
Lemma order_independence_needs_distinct_sequence :
  ~ (forall rows rows' : list idx_row,
       Permutation rows rows' ->
       (forall x y, In x rows -> In y rows -> index_key x = index_key y ->
          ix_IS_PRIMARY_OR_UNIQUE x = ix_IS_PRIMARY_OR_UNIQUE y) ->
       forall d, In d (grouped_then_sorted rows') <->
                 In d (sorted_then_grouped rows)) /\
  Permutation tied_idx_rows (rev tied_idx_rows) /\
  map idx_columns (grouped_then_sorted (rev tied_idx_rows)) =
  [ [ {| ic_name := Some "b"; ic_seq_in_index := 1 |};
      {| ic_name := Some "a"; ic_seq_in_index := 1 |} ] ] /\
  map idx_columns (sorted_then_grouped tied_idx_rows) =
  [ [ {| ic_name := Some "a"; ic_seq_in_index := 1 |};
      {| ic_name := Some "b"; ic_seq_in_index := 1 |} ] ].
Proof.
  split; [|split; [apply perm_swap | split; reflexivity]].
  intro H.
  specialize (H tied_idx_rows (rev tied_idx_rows) (perm_swap _ _ _)).
  assert (Hf : forall x y, In x tied_idx_rows -> In y tied_idx_rows ->
                 index_key x = index_key y ->
                 ix_IS_PRIMARY_OR_UNIQUE x = ix_IS_PRIMARY_OR_UNIQUE y).
  { intros x y [<-|[<-|[]]] [<-|[<-|[]]] _; reflexivity. }
  specialize (H Hf).
  destruct (H {| idx_name := "(unnamed)"; is_primary_or_unique := false;
                 idx_columns :=
                   [ {| ic_name := Some "b"; ic_seq_in_index := 1 |};
                     {| ic_name := Some "a"; ic_seq_in_index := 1 |} ] |})
    as [Hlr _].
  assert (Hin : In {| idx_name := "(unnamed)"; is_primary_or_unique := false;
                      idx_columns :=
                        [ {| ic_name := Some "b"; ic_seq_in_index := 1 |};
                          {| ic_name := Some "a"; ic_seq_in_index := 1 |} ] |}
                   (sorted_then_grouped tied_idx_rows)).
  { apply Hlr. left. reflexivity. }
  destruct Hin as [Hin|[]]. discriminate Hin.
Qed.

(** ** The tools and the connection *)

(** Unfold a tool down to the driver's answers. *)
Ltac unfold_tool :=
  unfold run_query, describe_table, describe_indexes_and_foreign_keys,
    get_conn, with_cursor, try_finally, bind, call, ret.

(** Decide a goal about a tool by cases on what the driver answers. *)
Ltac by_driver_cases :=
  repeat match goal with
         | |- context [drv_cursor ?d] => destruct (drv_cursor d); cbn
         | |- context [drv_execute ?d ?s] => destruct (drv_execute d s); cbn
         | |- context [has_result_set ?c] => destruct (has_result_set c); cbn
         | |- context [drv_fetch_rows ?d ?s] =>
             destruct (drv_fetch_rows d s); cbn
         | |- context [drv_fetch_columns ?d ?s ?t] =>
             destruct (drv_fetch_columns d s t); cbn
         | |- context [drv_fetch_statistics ?d ?s ?t] =>
             destruct (drv_fetch_statistics d s t); cbn
         | |- context [drv_fetch_key_usage ?d ?s ?t] =>
             destruct (drv_fetch_key_usage d s t); cbn
         | |- context [drv_commit ?d] => destruct (drv_commit d); cbn
         | |- context [drv_cursor_close ?d] =>
             destruct (drv_cursor_close d); cbn
         | |- context [drv_close ?d] => destruct (drv_close d); cbn
         end;
  try reflexivity.

(** Whatever the body does, [finally: conn.close()] is the next call. *)
Lemma try_finally_close_log {A : Type} (body : M A) (answer : outcome unit)
  (log : list event) :
  snd (try_finally body (call EvConnClose answer) log) =
  (snd (body log) ++ [EvConnClose])%list.
Proof.
  unfold try_finally, call. destruct (body log) as [r log1].
  destruct answer; reflexivity.
Qed.

(** C6.  When every driver call succeeds, [run_query] returns one of two
    shapes.  With a result-set description it fetches all rows and returns
    them as the driver gave them, together with the column names of the
    description in order, and does not commit.  Without one it commits and
    returns the driver's affected-row count. *)
Theorem run_query_result_shape (drv : driver) (sql : string)
  (cur : cursor_attrs) :
  drv_get_connection drv = Returns tt ->
  drv_cursor drv = Returns tt ->
  drv_execute drv (SqlText sql) = Returns cur ->
  drv_cursor_close drv = Returns tt ->
  drv_close drv = Returns tt ->
  (forall c cs rows,
     description cur = Some (c :: cs) ->
     drv_fetch_rows drv sql = Returns rows ->
     run_query drv sql [] =
     (Returns (QRows (map cd_name (c :: cs)) rows),
      [EvGetConnection; EvCursor; EvExecute (SqlText sql); EvFetchall;
       EvCursorClose; EvConnClose])) /\
  (description cur = None \/ description cur = Some [] ->
   drv_commit drv = Returns tt ->
   run_query drv sql [] =
   (Returns (QAffected (rowcount cur)),
    [EvGetConnection; EvCursor; EvExecute (SqlText sql); EvCommit;
     EvCursorClose; EvConnClose])).
Proof.
  intros Hconn Hcur Hexec Hcc Hclose. split.
  - intros c cs rows Hd Hrows. unfold_tool.
    rewrite Hconn, Hcur, Hexec. unfold has_result_set, column_names.
    rewrite Hd, Hrows, Hcc, Hclose. reflexivity.
  - intros Hd Hcommit. unfold_tool.
    rewrite Hconn, Hcur, Hexec. unfold has_result_set.
    destruct Hd as [Hd|Hd]; rewrite Hd, Hcommit, Hcc, Hclose; reflexivity.
Qed.

(** C7.  When the catalog has no row for (schema, table_name) and the
    driver raises nothing, [describe_table] returns the empty list and
    [describe_indexes_and_foreign_keys] returns three empty lists. *)
Theorem empty_catalog_yields_empty_lists (drv : driver)
  (schema table_name : string) :
  drv_get_connection drv = Returns tt ->
  drv_cursor drv = Returns tt ->
  drv_cursor_close drv = Returns tt ->
  drv_close drv = Returns tt ->
  (forall cur,
     drv_execute drv (ColumnsQuery schema table_name) = Returns cur ->
     drv_fetch_columns drv schema table_name = Returns [] ->
     fst (describe_table drv schema table_name []) = Returns []) /\
  (forall cur1 cur2,
     drv_execute drv (IndexQuery schema table_name) = Returns cur1 ->
     drv_fetch_statistics drv schema table_name = Returns [] ->
     drv_execute drv (FkQuery schema table_name) = Returns cur2 ->
     drv_fetch_key_usage drv schema table_name = Returns [] ->
     fst (describe_indexes_and_foreign_keys drv schema table_name []) =
     Returns {| indexes := [];
                foreign_keys_outbound := [];
                foreign_keys_inbound := [] |}).
Proof.
  intros Hconn Hcur Hcc Hclose. split.
  - intros cur Hexec Hrows. unfold_tool.
    rewrite Hconn, Hcur, Hexec, Hrows, Hcc, Hclose. reflexivity.
  - intros cur1 cur2 Hexec1 Hrows1 Hexec2 Hrows2. unfold_tool.
    rewrite Hconn, Hcur, Hexec1, Hrows1, Hexec2, Hrows2, Hcc, Hclose.
    reflexivity.
Qed.

(** C8.  Once a connection is acquired, each of the three tools ends with
    [conn.close()], called once and last, whatever the driver answers or
    raises in between. *)
Theorem connection_released_on_every_path (drv : driver)
  (sql schema table_name : string) :
  drv_get_connection drv = Returns tt ->
  released (snd (run_query drv sql [])) /\
  released (snd (describe_table drv schema table_name [])) /\
  released
    (snd (describe_indexes_and_foreign_keys drv schema table_name [])).
Proof.
  intro Hconn. unfold released. split; [|split].
  - unfold run_query, get_conn.
    unfold bind at 1. unfold call at 1. rewrite Hconn.
    rewrite try_finally_close_log. eexists. split; [reflexivity|].
    unfold_tool. by_driver_cases.
  - unfold describe_table, get_conn.
    unfold bind at 1. unfold call at 1. rewrite Hconn.
    rewrite try_finally_close_log. eexists. split; [reflexivity|].
    unfold_tool. by_driver_cases.
  - unfold describe_indexes_and_foreign_keys, get_conn.
    unfold bind at 1. unfold call at 1. rewrite Hconn.
    rewrite try_finally_close_log. eexists. split; [reflexivity|].
    unfold_tool. by_driver_cases.
Qed.

(** C10.  [run_query] commits once when the connection and the cursor are
    obtained, the statement executes and no result set is described; in
    every other case (a result set, or an exception before the commit) it
    does not commit.  The pool is built with autocommit off. *)
Theorem run_query_commits_only_without_result_set (drv : driver)
  (sql host user password database : string) (port : Z) :
  count_events is_commit (snd (run_query drv sql [])) =
  match drv_get_connection drv, drv_cursor drv,
        drv_execute drv (SqlText sql) with
  | Returns _, Returns _, Returns cur =>
      if has_result_set cur then 0 else 1
  | _, _, _ => 0
  end /\
  autocommit (build_connection_pool host user password database port) = false.
Proof.
  split; [|reflexivity].
  unfold_tool.
  destruct (drv_get_connection drv); cbn; [|reflexivity].
  destruct (drv_cursor drv); cbn; [|by_driver_cases].
  destruct (drv_execute drv (SqlText sql)) as [cur|e]; cbn;
    [|by_driver_cases].
  destruct (has_result_set cur); cbn; by_driver_cases.
Qed.

(** ** The properties at work on the sample data *)

Lemma index_fold_one_descriptor_per_name_witness :
  In sample_idx_ab (PyDict.values (index_fold sample_idx_rows)) /\
  exists r0 g,
    group_rows String.eqb index_key (idx_name sample_idx_ab) sample_idx_rows =
    r0 :: g /\
    idx_columns sample_idx_ab = map index_column (r0 :: g) /\
    is_primary_or_unique sample_idx_ab =
    py_bool (ix_IS_PRIMARY_OR_UNIQUE r0).
Proof.
  assert (Hin : In sample_idx_ab
                   (PyDict.values (index_fold sample_idx_rows))).
  { vm_compute. right. left. reflexivity. }
  split; [exact Hin|].
  exact (proj1 (proj2 (proj2
           (index_fold_one_descriptor_per_name sample_idx_rows))) _ Hin).
Defined.

Lemma unnamed_rows_share_one_descriptor_witness :
  In (mk_idx_row None 0 1 "c") sample_idx_rows /\
  exists d l1 l2,
    PyDict.values (index_fold sample_idx_rows) = (l1 ++ d :: l2)%list /\
    idx_name d = "(unnamed)" /\
    (forall d', In d' (l1 ++ l2) -> idx_name d' <> "(unnamed)") /\
    In (index_column (mk_idx_row None 0 1 "c")) (idx_columns d) /\
    idx_columns d =
    map index_column
      (filter (fun r' => String.eqb "(unnamed)" (index_key r'))
         sample_idx_rows).
Proof.
  assert (Hin : In (mk_idx_row None 0 1 "c") sample_idx_rows).
  { simpl. right. right. right. left. reflexivity. }
  split; [exact Hin|].
  exact (proj2 (unnamed_rows_share_one_descriptor sample_idx_rows)
           _ Hin (or_introl eq_refl)).
Defined.

Lemma fk_descriptor_fields_from_first_row_witness :
  In sample_fk_order (PyDict.values (outbound (fk_fold sample_fk_rows))) /\
  exists r0 g,
    group_rows opt_eqb ku_CONSTRAINT_NAME (ob_name sample_fk_order)
      sample_fk_rows = r0 :: g /\
    ob_name sample_fk_order = ku_CONSTRAINT_NAME r0 /\
    target_schema sample_fk_order = ku_REFERENCED_TABLE_SCHEMA r0 /\
    target_table sample_fk_order = ku_REFERENCED_TABLE_NAME r0 /\
    ob_columns sample_fk_order = map fk_column (r0 :: g).
Proof.
  assert (Hin : In sample_fk_order
                   (PyDict.values (outbound (fk_fold sample_fk_rows)))).
  { vm_compute. left. reflexivity. }
  split; [exact Hin|].
  exact (proj1 (fk_descriptor_fields_from_first_row sample_fk_rows) _ Hin).
Defined.


(** Discharge a hypothesis that ranges over pairs of sample rows. *)
Ltac by_sample_rows :=
  intros r1 r2 H1 H2; simpl in H1, H2;
  repeat match goal with
         | H : _ \/ _ |- _ => destruct H as [H|H]
         | H : False |- _ => destruct H
         end;
  subst r1 r2; intros; try reflexivity;
  match goal with
  | H : _ = _ |- _ => vm_compute in H; discriminate H
  end.

Lemma grouping_order_independent_witness :
  Permutation sample_idx_rows shuffled_idx_rows /\
  Permutation (grouped_then_sorted shuffled_idx_rows)
    (sorted_then_grouped sample_idx_rows).
Proof.
  assert (Hp : Permutation sample_idx_rows shuffled_idx_rows).
  { unfold sample_idx_rows, shuffled_idx_rows.
    etransitivity; [apply perm_skip, perm_swap|].
    etransitivity; [apply perm_swap|]. reflexivity. }
  split; [exact Hp|].
  apply (grouping_order_independent sample_idx_rows shuffled_idx_rows Hp).
  - by_sample_rows.
  - by_sample_rows.
Defined.

Lemma run_query_result_shape_witness :
  run_query sample_driver "SELECT 1 AS x" [] =
  (Returns (QRows ["x"] [ [("x", VInt 1)] ]),
   [EvGetConnection; EvCursor; EvExecute (SqlText "SELECT 1 AS x");
    EvFetchall; EvCursorClose; EvConnClose]) /\
  run_query sample_driver "UPDATE t SET c=1 WHERE id=999" [] =
  (Returns (QAffected 0),
   [EvGetConnection; EvCursor;
    EvExecute (SqlText "UPDATE t SET c=1 WHERE id=999");
    EvCommit; EvCursorClose; EvConnClose]).
Proof.
  split.
  - apply (proj1 (run_query_result_shape sample_driver "SELECT 1 AS x"
                    {| description := Some [ {| cd_name := "x";
                                                cd_type_code := 8 |} ];
                       rowcount := 1 |}
                    eq_refl eq_refl eq_refl eq_refl eq_refl)
             {| cd_name := "x"; cd_type_code := 8 |} [] [ [("x", VInt 1)] ]);
      reflexivity.
  - apply (proj2 (run_query_result_shape sample_driver
                    "UPDATE t SET c=1 WHERE id=999"
                    {| description := None; rowcount := 0 |}
                    eq_refl eq_refl eq_refl eq_refl eq_refl)).
    + left. reflexivity.
    + reflexivity.
Defined.

Lemma empty_catalog_yields_empty_lists_witness :
  fst (describe_table sample_driver "shop" "missing" []) = Returns [] /\
  fst (describe_indexes_and_foreign_keys sample_driver "shop" "missing" []) =
  Returns {| indexes := [];
             foreign_keys_outbound := [];
             foreign_keys_inbound := [] |}.
Proof.
  destruct (empty_catalog_yields_empty_lists sample_driver "shop" "missing"
              eq_refl eq_refl eq_refl eq_refl) as [Ht Hi].
  split.
  - apply (Ht {| description := Some [ {| cd_name := "COLUMN_NAME";
                                          cd_type_code := 253 |} ];
                 rowcount := 0 |}); reflexivity.
  - apply (Hi {| description := Some [ {| cd_name := "COLUMN_NAME";
                                          cd_type_code := 253 |} ];
                 rowcount := 0 |}
              {| description := Some [ {| cd_name := "COLUMN_NAME";
                                          cd_type_code := 253 |} ];
                 rowcount := 0 |}); reflexivity.
Defined.

Lemma connection_released_on_every_path_witness :
  fst (run_query failing_driver "SELEC 1" []) =
  Raises (DriverError "syntax error") /\
  released (snd (run_query failing_driver "SELEC 1" [])) /\
  released (snd (describe_table failing_driver "shop" "child" [])) /\
  released
    (snd (describe_indexes_and_foreign_keys failing_driver "shop" "child" [])).
Proof.
  split; [reflexivity|].
  apply (connection_released_on_every_path failing_driver
           "SELEC 1" "shop" "child").
  reflexivity.
Defined.

(* ================================================================== *)
(** * Further properties of the folds *)

Section GroupOrder.
Context {K V R : Type}.
Variable eqb : K -> K -> bool.
Hypothesis eqb_eq : forall a b, eqb a b = true <-> a = b.
Variable key : R -> K.
Variable new : R -> V.
Variable upd : R -> V -> V.

Local Abbreviation step := (group_step eqb key new upd).
Local Abbreviation gfold := (group_fold eqb key new upd).

Lemma first_seen_snoc l k :
  first_seen eqb (l ++ [k]) =
  if existsb (eqb k) l then first_seen eqb l
  else (first_seen eqb l ++ [k])%list.
Proof.
  induction l as [|a t IH]; simpl; [reflexivity|].
  rewrite IH. destruct (existsb (eqb k) t) eqn:E.
  - now rewrite orb_true_r.
  - rewrite orb_false_r, filter_app. simpl.
    destruct (eqb a k) eqn:Eak.
    + apply eqb_eq in Eak. subst a. rewrite (eqb_refl eqb eqb_eq).
      simpl. now rewrite app_nil_r.
    + assert (Eka : eqb k a = false).
      { apply (eqb_neq eqb eqb_eq). intro H. subst a.
        rewrite (eqb_refl eqb eqb_eq) in Eak. discriminate. }
      rewrite Eka. reflexivity.
Qed.

Lemma mem_group_fold rows k :
  PyDict.mem eqb k (gfold rows) = existsb (eqb k) (map key rows).
Proof.
  pose proof (in_keys_group_fold eqb eqb_eq key new upd rows k) as Hk.
  rewrite (in_keys_get eqb eqb_eq) in Hk. unfold PyDict.mem.
  destruct (existsb (eqb k) (map key rows)) eqn:E.
  - apply existsb_exists in E. destruct E as (k' & Hin & Hk').
    apply eqb_eq in Hk'. subst k'. apply in_map_iff in Hin.
    destruct Hin as (r & Hr & Hin).
    destruct (PyDict.get eqb k (gfold rows)); [reflexivity|].
    exfalso. apply (proj2 Hk); [eauto | reflexivity].
  - destruct (PyDict.get eqb k (gfold rows)) eqn:G; [|reflexivity].
    exfalso. destruct (proj1 Hk) as (r & Hin & Hr); [discriminate|].
    assert (H : existsb (eqb k) (map key rows) = true).
    { apply existsb_exists. exists k. split.
      - rewrite <- Hr. now apply in_map.
      - apply (eqb_refl eqb eqb_eq). }
    congruence.
Qed.

Lemma keys_group_fold rows :
  PyDict.keys (gfold rows) = first_seen eqb (map key rows).
Proof.
  induction rows as [|r rows IH] using rev_ind; [reflexivity|].
  rewrite group_fold_snoc, (keys_group_step eqb eqb_eq), map_app. simpl.
  rewrite first_seen_snoc, mem_group_fold, IH. reflexivity.
Qed.

Section Entries.
Context {E : Type}.
Variable cols : V -> list E.
Variable entry : R -> E.
Hypothesis cols_upd : forall r v, cols (upd r v) = (cols v ++ [entry r])%list.
Hypothesis cols_new : forall r, cols (new r) = [].

Lemma entries_group_step d r :
  Permutation (all_entries cols (PyDict.values (step d r)))
    (all_entries cols (PyDict.values d) ++ [entry r]).
Proof.
  destruct (group_step_one_entry eqb eqb_eq key new upd d r)
    as (l1 & v & l2 & Hs & [Hd|(Hd & Hl2 & Hv)]).
  - rewrite Hs, Hd. unfold all_entries, PyDict.values.
    rewrite !map_app, !concat_app. simpl. rewrite cols_upd.
    rewrite <- !app_assoc. apply Permutation_app_head.
    apply Permutation_app_head. apply Permutation_app_comm.
  - subst l1 l2 v. rewrite Hs. unfold all_entries, PyDict.values.
    rewrite !map_app, !concat_app. simpl.
    rewrite cols_upd, cols_new. reflexivity.
Qed.

Lemma entries_group_fold rows :
  Permutation (all_entries cols (PyDict.values (gfold rows)))
    (map entry rows).
Proof.
  induction rows as [|r rows IH] using rev_ind; [reflexivity|].
  rewrite group_fold_snoc, map_app. simpl.
  etransitivity; [apply entries_group_step|].
  now apply Permutation_app_tail.
Qed.
End Entries.
End GroupOrder.

Lemma outbound_names_keys rows :
  map ob_name (PyDict.values (outbound (fk_fold rows))) =
  PyDict.keys (outbound (fk_fold rows)).
Proof.
  apply map_values_keys. intros k d H.
  apply in_outbound in H. destruct H as (r0 & g & E & ->). simpl.
  now destruct (group_rows_head _ opt_eqb_eq _ _ _ _ _ E).
Qed.

(** X1.  The index descriptors come out in the order in which their names
    first occur among the rows. *)
Theorem index_descriptors_in_first_seen_order (rows : list idx_row) :
  map idx_name (PyDict.values (index_fold rows)) =
  first_seen String.eqb (map index_key rows).
Proof.
  rewrite index_names_keys, index_fold_group.
  apply keys_group_fold, String.eqb_eq.
Qed.

(** X2.  The outbound descriptors come out in the order in which their
    constraint names first occur, the inbound ones in the order in which
    their keys first occur. *)
Theorem fk_descriptors_in_first_seen_order (rows : list fk_row) :
  map ob_name (PyDict.values (outbound (fk_fold rows))) =
  first_seen opt_eqb (map ku_CONSTRAINT_NAME rows) /\
  PyDict.keys (inbound (fk_fold rows)) =
  first_seen String.eqb (map inbound_key rows).
Proof.
  split.
  - rewrite outbound_names_keys, fk_fold_outbound.
    apply keys_group_fold, opt_eqb_eq.
  - rewrite fk_fold_inbound. apply keys_group_fold, String.eqb_eq.
Qed.

(** X3.  The index fold neither drops nor repeats a row: the column entries
    of all descriptors together are those of the rows, up to order. *)
Theorem index_fold_keeps_every_column (rows : list idx_row) :
  Permutation
    (all_entries idx_columns (PyDict.values (index_fold rows)))
    (map index_column rows).
Proof.
  rewrite index_fold_group.
  apply (entries_group_fold String.eqb String.eqb_eq); reflexivity.
Qed.

(** X4.  The outbound descriptors and the inbound descriptors hold the same
    column entries, those of the rows, up to order. *)
Theorem fk_fold_keeps_every_column (rows : list fk_row) :
  Permutation
    (all_entries ob_columns (PyDict.values (outbound (fk_fold rows))))
    (map fk_column rows) /\
  Permutation
    (all_entries ib_columns (PyDict.values (inbound (fk_fold rows))))
    (map fk_column rows) /\
  Permutation
    (all_entries ob_columns (PyDict.values (outbound (fk_fold rows))))
    (all_entries ib_columns (PyDict.values (inbound (fk_fold rows)))).
Proof.
  assert (Ho : Permutation
                 (all_entries ob_columns
                    (PyDict.values (outbound (fk_fold rows))))
                 (map fk_column rows)).
  { rewrite fk_fold_outbound.
    apply (entries_group_fold opt_eqb opt_eqb_eq); reflexivity. }
  assert (Hi : Permutation
                 (all_entries ib_columns
                    (PyDict.values (inbound (fk_fold rows))))
                 (map fk_column rows)).
  { rewrite fk_fold_inbound.
    apply (entries_group_fold String.eqb String.eqb_eq); reflexivity. }
  split; [exact Ho|]. split; [exact Hi|].
  etransitivity; [exact Ho | now apply Permutation_sym].
Qed.

(** X5.  No descriptor is empty: a descriptor exists only because a row
    created it, and that row's column is its first entry. *)
Theorem descriptors_have_a_column (idx_rows : list idx_row)
  (fk_rows : list fk_row) :
  (forall d, In d (PyDict.values (index_fold idx_rows)) ->
     exists r0 rest, In r0 idx_rows /\
       idx_columns d = index_column r0 :: rest) /\
  (forall d, In d (PyDict.values (outbound (fk_fold fk_rows))) ->
     exists r0 rest, In r0 fk_rows /\
       ob_columns d = fk_column r0 :: rest) /\
  (forall d, In d (PyDict.values (inbound (fk_fold fk_rows))) ->
     exists r0 rest, In r0 fk_rows /\
       ib_columns d = fk_column r0 :: rest).
Proof.
  split; [|split]; intros d H; apply in_values in H; destruct H as (k & H).
  - apply in_index_fold in H. destruct H as (r0 & g & E & ->).
    destruct (group_rows_head _ String.eqb_eq _ _ _ _ _ E) as [Hin _].
    exists r0, (map index_column g). auto.
  - apply in_outbound in H. destruct H as (r0 & g & E & ->).
    destruct (group_rows_head _ opt_eqb_eq _ _ _ _ _ E) as [Hin _].
    exists r0, (map fk_column g). auto.
  - apply in_inbound in H. destruct H as (r0 & g & E & ->).
    destruct (group_rows_head _ String.eqb_eq _ _ _ _ _ E) as [Hin _].
    exists r0, (map fk_column g). auto.
Qed.

Lemma group_columns_by_sequence k (g : list idx_row) :
  StronglySorted
    (fun a b => index_key a = index_key b ->
                (ix_SEQ_IN_INDEX a <= ix_SEQ_IN_INDEX b)%Z) g ->
  (forall r, In r g -> index_key r = k) ->
  StronglySorted
    (fun c1 c2 => (ic_seq_in_index c1 <= ic_seq_in_index c2)%Z)
    (map index_column g).
Proof.
  induction 1 as [|a l Hs IH Ha]; simpl; intro Hk; [constructor|].
  constructor.
  - apply IH. intros r Hr. apply Hk. now right.
  - rewrite Forall_forall in *. intros c Hc.
    apply in_map_iff in Hc. destruct Hc as (r & <- & Hr). simpl.
    apply (Ha r Hr). rewrite (Hk a), (Hk r) by (simpl; auto). reflexivity.
Qed.

(** X6.  The fold does not sort, it inherits: when, among the rows of one
    index name, sequence numbers never decrease along the input (as the
    [ORDER BY] of the statistics query provides), every descriptor lists
    its columns by non-decreasing sequence number. *)
Theorem ordered_rows_give_ordered_columns (rows : list idx_row) :
  StronglySorted
    (fun a b => index_key a = index_key b ->
                (ix_SEQ_IN_INDEX a <= ix_SEQ_IN_INDEX b)%Z) rows ->
  forall d, In d (PyDict.values (index_fold rows)) ->
    StronglySorted
      (fun c1 c2 => (ic_seq_in_index c1 <= ic_seq_in_index c2)%Z)
      (idx_columns d).
Proof.
  intros Hs d H. apply in_values in H. destruct H as (k & H).
  apply in_index_fold in H. destruct H as (r0 & g & E & ->).
  cbn [idx_columns]. rewrite <- E.
  apply group_columns_by_sequence with (k := k).
  - now apply filter_sorted.
  - intros r Hr. now apply in_group_rows in Hr.
Qed.

(** X7.  The rows of the key-usage query all belong to the described
    table, so every entry of the inbound list names that table as its
    source and bears the name of a constraint of the outbound list: the
    inbound list never holds a constraint declared on another table. *)
Theorem inbound_entries_come_from_the_described_table
  (rows : list fk_row) (schema table_name : option string) :
  (forall r, In r rows ->
     ku_TABLE_SCHEMA r = schema /\ ku_TABLE_NAME r = table_name) ->
  forall d, In d (PyDict.values (inbound (fk_fold rows))) ->
    source_schema d = schema /\ source_table d = table_name /\
    In (ib_name d) (map ob_name (PyDict.values (outbound (fk_fold rows)))).
Proof.
  intros Hsrc d H. apply in_values in H. destruct H as (k & H).
  apply in_inbound in H. destruct H as (r0 & g & E & ->).
  destruct (group_rows_head _ String.eqb_eq _ _ _ _ _ E) as [Hin _].
  destruct (Hsrc r0 Hin) as [Hs Ht]. cbn. repeat split; try assumption.
  rewrite outbound_names_keys, fk_fold_outbound.
  apply (in_keys_group_fold _ opt_eqb_eq). eauto.
Qed.

(* ================================================================== *)
(** * Further properties of the tools *)

(** An exception raised by the cleanup is what [try/finally] raises. *)
Lemma try_finally_cleanup_raises {A : Type} (body : M A) (ev : event)
  (e : exn) (log : list event) :
  fst (try_finally body (call ev (Raises e)) log) = Raises e.
Proof. unfold try_finally, call. now destruct (body log). Qed.

(** X8.  When the pool hands out no connection, each tool raises the
    pool's exception and calls nothing else: no cursor is asked for and no
    connection is closed. *)
Theorem pool_failure_stops_the_tool (drv : driver)
  (sql schema table_name : string) (e : exn) :
  drv_get_connection drv = Raises e ->
  run_query drv sql [] = (Raises e, [EvGetConnection]) /\
  describe_table drv schema table_name [] = (Raises e, [EvGetConnection]) /\
  describe_indexes_and_foreign_keys drv schema table_name [] =
  (Raises e, [EvGetConnection]).
Proof.
  intro H. unfold_tool. rewrite H. repeat split; reflexivity.
Qed.

(** X9.  [run_query] hands the caller the exception of the first driver
    call that fails and skips what would follow it: a failed [execute] is
    followed by neither [fetchall] nor [commit], a failed [fetchall] or
    [commit] by no further statement; cursor and connection are closed
    afterwards all the same. *)
Theorem run_query_propagates_the_first_error (drv : driver) (sql : string)
  (e : exn) :
  drv_get_connection drv = Returns tt ->
  drv_cursor drv = Returns tt ->
  drv_cursor_close drv = Returns tt ->
  drv_close drv = Returns tt ->
  (drv_execute drv (SqlText sql) = Raises e ->
   run_query drv sql [] =
   (Raises e,
    [EvGetConnection; EvCursor; EvExecute (SqlText sql);
     EvCursorClose; EvConnClose])) /\
  (forall cur,
     drv_execute drv (SqlText sql) = Returns cur ->
     has_result_set cur = true ->
     drv_fetch_rows drv sql = Raises e ->
     run_query drv sql [] =
     (Raises e,
      [EvGetConnection; EvCursor; EvExecute (SqlText sql); EvFetchall;
       EvCursorClose; EvConnClose])) /\
  (forall cur,
     drv_execute drv (SqlText sql) = Returns cur ->
     has_result_set cur = false ->
     drv_commit drv = Raises e ->
     run_query drv sql [] =
     (Raises e,
      [EvGetConnection; EvCursor; EvExecute (SqlText sql); EvCommit;
       EvCursorClose; EvConnClose])).
Proof.
  intros Hconn Hcur Hcc Hclose. split; [|split].
  - intro Hexec. unfold_tool.
    rewrite Hconn, Hcur, Hexec, Hcc, Hclose. reflexivity.
  - intros cur Hexec Hset Hrows. unfold_tool.
    rewrite Hconn, Hcur, Hexec, Hset, Hrows, Hcc, Hclose. reflexivity.
  - intros cur Hexec Hset Hcommit. unfold_tool.
    rewrite Hconn, Hcur, Hexec, Hset, Hcommit, Hcc, Hclose. reflexivity.
Qed.

(** X10.  The statements a tool sends.  [run_query] sends the caller's
    text, unchanged and once.  [describe_table] sends the column query
    with the caller's schema and table as its parameters.
    [describe_indexes_and_foreign_keys] sends the index query and, only
    once that one was executed and fetched, the key-usage query.  Nothing
    is sent without a connection and a cursor. *)
Theorem statements_sent_by_the_tools (drv : driver)
  (sql schema table_name : string) :
  executed (snd (run_query drv sql [])) =
  match drv_get_connection drv, drv_cursor drv with
  | Returns _, Returns _ => [SqlText sql]
  | _, _ => []
  end /\
  executed (snd (describe_table drv schema table_name [])) =
  match drv_get_connection drv, drv_cursor drv with
  | Returns _, Returns _ => [ColumnsQuery schema table_name]
  | _, _ => []
  end /\
  executed
    (snd (describe_indexes_and_foreign_keys drv schema table_name [])) =
  match drv_get_connection drv, drv_cursor drv with
  | Returns _, Returns _ =>
      match drv_execute drv (IndexQuery schema table_name),
            drv_fetch_statistics drv schema table_name with
      | Returns _, Returns _ =>
          [IndexQuery schema table_name; FkQuery schema table_name]
      | _, _ => [IndexQuery schema table_name]
      end
  | _, _ => []
  end.
Proof.
  split; [|split]; unfold_tool;
    (destruct (drv_get_connection drv); cbn; [|reflexivity]);
    (destruct (drv_cursor drv); cbn; [|by_driver_cases]).
  - by_driver_cases.
  - by_driver_cases.
  - destruct (drv_execute drv (IndexQuery schema table_name)); cbn;
      [|by_driver_cases].
    destruct (drv_fetch_statistics drv schema table_name); cbn;
      by_driver_cases.
Qed.

(** X11.  An exception raised while closing replaces the outcome of the
    tool, a computed result included: when [conn.close()] raises, the tool
    raises that exception; when closing the cursor raises and the
    connection closes, the tool raises the cursor's exception. *)
Theorem closing_errors_replace_the_result (drv : driver)
  (sql schema table_name : string) (e : exn) :
  drv_get_connection drv = Returns tt ->
  (drv_close drv = Raises e ->
   fst (run_query drv sql []) = Raises e /\
   fst (describe_table drv schema table_name []) = Raises e /\
   fst (describe_indexes_and_foreign_keys drv schema table_name []) =
   Raises e) /\
  (drv_cursor drv = Returns tt ->
   drv_cursor_close drv = Raises e ->
   drv_close drv = Returns tt ->
   fst (run_query drv sql []) = Raises e /\
   fst (describe_table drv schema table_name []) = Raises e /\
   fst (describe_indexes_and_foreign_keys drv schema table_name []) =
   Raises e).
Proof.
  intro Hconn. split.
  - intro Hclose.
    unfold run_query, describe_table, describe_indexes_and_foreign_keys,
      get_conn.
    unfold bind at 1 3 5. unfold call at 1 4 7.
    rewrite Hconn, Hclose. repeat split; apply try_finally_cleanup_raises.
  - intros Hcur Hcc Hclose. repeat split; unfold_tool;
      rewrite Hconn, Hcur, Hcc, Hclose; by_driver_cases.
Qed.

(** X12.  The two describing tools only read: whatever the driver answers,
    they never commit. *)
Theorem describing_tools_never_commit (drv : driver)
  (schema table_name : string) :
  count_events is_commit (snd (describe_table drv schema table_name [])) = 0 /\
  count_events is_commit
    (snd (describe_indexes_and_foreign_keys drv schema table_name [])) = 0.
Proof.
  split; unfold_tool;
    (destruct (drv_get_connection drv); cbn; [|reflexivity]);
    by_driver_cases.
Qed.

(** X13.  A cursor that was opened is closed once, whatever happens in the
    block; no cursor is closed when none could be opened.  [run_query]
    fetches only when the statement executed and described a result set.  *)
Theorem cursor_closed_when_opened (drv : driver)
  (sql schema table_name : string) :
  let closes :=
    match drv_get_connection drv, drv_cursor drv with
    | Returns _, Returns _ => 1
    | _, _ => 0
    end in
  count_events is_cursor_close (snd (run_query drv sql [])) = closes /\
  count_events is_cursor_close
    (snd (describe_table drv schema table_name [])) = closes /\
  count_events is_cursor_close
    (snd (describe_indexes_and_foreign_keys drv schema table_name [])) =
  closes /\
  count_events is_fetchall (snd (run_query drv sql [])) =
  match drv_get_connection drv, drv_cursor drv,
        drv_execute drv (SqlText sql) with
  | Returns _, Returns _, Returns cur =>
      if has_result_set cur then 1 else 0
  | _, _, _ => 0
  end.
Proof.
  cbv zeta. repeat split; unfold_tool;
    (destruct (drv_get_connection drv); cbn; [|reflexivity]);
    (destruct (drv_cursor drv); cbn; [|by_driver_cases]);
    try (destruct (drv_execute drv (SqlText sql)) as [cur|]; cbn;
         [destruct (has_result_set cur); cbn|]);
    by_driver_cases.
Qed.

(** X14.  [describe_table] answers with one descriptor per catalog row, in
    the catalog's order; name, type and length are handed over untouched,
    and [nullable] is true exactly when [IS_NULLABLE] is the text [YES]
    (so a null, ["NO"] or ["yes"] gives false). *)
Theorem describe_table_maps_rows_in_order (drv : driver)
  (schema table_name : string) (cur : cursor_attrs)
  (rows : list column_row) :
  drv_get_connection drv = Returns tt ->
  drv_cursor drv = Returns tt ->
  drv_execute drv (ColumnsQuery schema table_name) = Returns cur ->
  drv_fetch_columns drv schema table_name = Returns rows ->
  drv_cursor_close drv = Returns tt ->
  drv_close drv = Returns tt ->
  exists ds,
    describe_table drv schema table_name [] =
    (Returns ds,
     [EvGetConnection; EvCursor; EvExecute (ColumnsQuery schema table_name);
      EvFetchall; EvCursorClose; EvConnClose]) /\
    List.length ds = List.length rows /\
    forall i row, nth_error rows i = Some row ->
      exists d, nth_error ds i = Some d /\
        cdesc_column d = col_COLUMN_NAME row /\
        cdesc_type d = col_DATA_TYPE row /\
        cdesc_length d = col_CHARACTER_MAXIMUM_LENGTH row /\
        (cdesc_nullable d = true <-> col_IS_NULLABLE row = Some "YES").
Proof.
  intros Hconn Hcur Hexec Hrows Hcc Hclose.
  exists (map column_descriptor rows). split; [|split].
  - unfold_tool. rewrite Hconn, Hcur, Hexec, Hrows, Hcc, Hclose.
    reflexivity.
  - apply length_map.
  - intros i row Hi. exists (column_descriptor row).
    split; [now apply map_nth_error|].
    repeat split; try reflexivity; apply opt_eqb_eq.
Qed.

Lemma index_total_entries rows :
  total_entries idx_columns (PyDict.values (index_fold rows)) =
  List.length rows.
Proof.
  unfold total_entries, index_fold.
  change index_step with
    (group_step String.eqb index_key index_new
       (fun r => index_append (index_column r))).
  rewrite (total_fold_left String.eqb String.eqb_eq); simpl;
    [lia| |reflexivity].
  intros r v. rewrite length_app. simpl. lia.
Qed.

Lemma outbound_total_entries rows :
  total_entries ob_columns (PyDict.values (outbound (fk_fold rows))) =
  List.length rows.
Proof.
  unfold fk_fold, total_entries. rewrite fk_fold_left_outbound.
  change outbound_step with
    (group_step opt_eqb ku_CONSTRAINT_NAME outbound_new
       (fun r => outbound_append (fk_column r))).
  rewrite (total_fold_left opt_eqb opt_eqb_eq); simpl; [lia| |reflexivity].
  intros r v. rewrite length_app. simpl. lia.
Qed.

Lemma inbound_total_entries rows :
  total_entries ib_columns (PyDict.values (inbound (fk_fold rows))) =
  List.length rows.
Proof.
  unfold fk_fold, total_entries. rewrite fk_fold_left_inbound.
  change inbound_step with
    (group_step String.eqb inbound_key inbound_new
       (fun r => inbound_append (fk_column r))).
  rewrite (total_fold_left String.eqb String.eqb_eq); simpl;
    [lia| |reflexivity].
  intros r v. rewrite length_app. simpl. lia.
Qed.

(** X15.  When the driver raises nothing,
    [describe_indexes_and_foreign_keys] returns the folds of the rows it
    fetched: index names are pairwise distinct, outbound constraint names
    are pairwise distinct, and each of the three lists holds as many column
    entries as the query behind it returned rows. *)
Theorem describe_indexes_returns_the_folds (drv : driver)
  (schema table_name : string) (cur1 cur2 : cursor_attrs)
  (idx_rows : list idx_row) (fk_rows : list fk_row) :
  drv_get_connection drv = Returns tt ->
  drv_cursor drv = Returns tt ->
  drv_execute drv (IndexQuery schema table_name) = Returns cur1 ->
  drv_fetch_statistics drv schema table_name = Returns idx_rows ->
  drv_execute drv (FkQuery schema table_name) = Returns cur2 ->
  drv_fetch_key_usage drv schema table_name = Returns fk_rows ->
  drv_cursor_close drv = Returns tt ->
  drv_close drv = Returns tt ->
  exists rel,
    describe_indexes_and_foreign_keys drv schema table_name [] =
    (Returns rel,
     [EvGetConnection; EvCursor; EvExecute (IndexQuery schema table_name);
      EvFetchall; EvExecute (FkQuery schema table_name); EvFetchall;
      EvCursorClose; EvConnClose]) /\
    indexes rel = PyDict.values (index_fold idx_rows) /\
    foreign_keys_outbound rel = PyDict.values (outbound (fk_fold fk_rows)) /\
    foreign_keys_inbound rel = PyDict.values (inbound (fk_fold fk_rows)) /\
    NoDup (map idx_name (indexes rel)) /\
    NoDup (map ob_name (foreign_keys_outbound rel)) /\
    total_entries idx_columns (indexes rel) = List.length idx_rows /\
    total_entries ob_columns (foreign_keys_outbound rel) =
    List.length fk_rows /\
    total_entries ib_columns (foreign_keys_inbound rel) =
    List.length fk_rows.
Proof.
  intros Hconn Hcur He1 Hr1 He2 Hr2 Hcc Hclose.
  eexists. split.
  - unfold_tool. rewrite Hconn, Hcur, He1, Hr1, He2, Hr2, Hcc, Hclose.
    reflexivity.
  - cbn [indexes foreign_keys_outbound foreign_keys_inbound fst snd].
    repeat split.
    + apply nodup_index_names.
    + rewrite outbound_names_keys, fk_fold_outbound.
      apply nodup_keys_group_fold, opt_eqb_eq.
    + apply index_total_entries.
    + apply outbound_total_entries.
    + apply inbound_total_entries.
Qed.

(** X16.  [describe_indexes_and_foreign_keys] returns all three lists or
    none: when the key-usage query or its fetch fails after the indexes
    were read, the tool raises that exception and the index descriptors are
    dropped; when the index query or its fetch fails, the key-usage query
    is not sent.  Cursor and connection are closed in each case. *)
Theorem describe_indexes_has_no_partial_result (drv : driver)
  (schema table_name : string) (e : exn) :
  drv_get_connection drv = Returns tt ->
  drv_cursor drv = Returns tt ->
  drv_cursor_close drv = Returns tt ->
  drv_close drv = Returns tt ->
  (drv_execute drv (IndexQuery schema table_name) = Raises e ->
   describe_indexes_and_foreign_keys drv schema table_name [] =
   (Raises e,
    [EvGetConnection; EvCursor; EvExecute (IndexQuery schema table_name);
     EvCursorClose; EvConnClose])) /\
  (forall cur1,
     drv_execute drv (IndexQuery schema table_name) = Returns cur1 ->
     drv_fetch_statistics drv schema table_name = Raises e ->
     describe_indexes_and_foreign_keys drv schema table_name [] =
     (Raises e,
      [EvGetConnection; EvCursor; EvExecute (IndexQuery schema table_name);
       EvFetchall; EvCursorClose; EvConnClose])) /\
  (forall cur1 idx_rows,
     drv_execute drv (IndexQuery schema table_name) = Returns cur1 ->
     drv_fetch_statistics drv schema table_name = Returns idx_rows ->
     drv_execute drv (FkQuery schema table_name) = Raises e ->
     describe_indexes_and_foreign_keys drv schema table_name [] =
     (Raises e,
      [EvGetConnection; EvCursor; EvExecute (IndexQuery schema table_name);
       EvFetchall; EvExecute (FkQuery schema table_name);
       EvCursorClose; EvConnClose])) /\
  (forall cur1 idx_rows cur2,
     drv_execute drv (IndexQuery schema table_name) = Returns cur1 ->
     drv_fetch_statistics drv schema table_name = Returns idx_rows ->
     drv_execute drv (FkQuery schema table_name) = Returns cur2 ->
     drv_fetch_key_usage drv schema table_name = Raises e ->
     describe_indexes_and_foreign_keys drv schema table_name [] =
     (Raises e,
      [EvGetConnection; EvCursor; EvExecute (IndexQuery schema table_name);
       EvFetchall; EvExecute (FkQuery schema table_name); EvFetchall;
       EvCursorClose; EvConnClose])).
Proof.
  intros Hconn Hcur Hcc Hclose. split; [|split; [|split]].
  - intro H1. unfold_tool. rewrite Hconn, Hcur, H1, Hcc, Hclose.
    reflexivity.
  - intros cur1 H1 H2. unfold_tool.
    rewrite Hconn, Hcur, H1, H2, Hcc, Hclose. reflexivity.
  - intros cur1 idx_rows H1 H2 H3. unfold_tool.
    rewrite Hconn, Hcur, H1, H2, H3, Hcc, Hclose. reflexivity.
  - intros cur1 idx_rows cur2 H1 H2 H3 H4. unfold_tool.
    rewrite Hconn, Hcur, H1, H2, H3, H4, Hcc, Hclose. reflexivity.
Qed.

(* ================================================================== *)
(** * The pool settings *)

(** X17.  [build_connection_pool] needs [MYSQL_HOST], [MYSQL_USER],
    [MYSQL_PASSWORD] and [MYSQL_DB]: the first of them that is missing, in
    that order, is reported by a [KeyError], before the port is looked at.
    With all four present the port text is [MYSQL_PORT], or ["3306"] when
    that variable is absent; a text [int] rejects gives a [ValueError],
    otherwise the pool is built from the five values.  A pool that is built
    always has five connections, charset [utf8mb4] and autocommit off. *)
Theorem pool_settings_from_environment (py_int : string -> option Z)
  (environ : list (string * string)) :
  match find (fun name => negb (PyDict.mem String.eqb name environ))
          ["MYSQL_HOST"; "MYSQL_USER"; "MYSQL_PASSWORD"; "MYSQL_DB"] with
  | Some name =>
      build_connection_pool_from py_int environ = inl (KeyError name)
  | None =>
      exists host user password database,
        PyDict.get String.eqb "MYSQL_HOST" environ = Some host /\
        PyDict.get String.eqb "MYSQL_USER" environ = Some user /\
        PyDict.get String.eqb "MYSQL_PASSWORD" environ = Some password /\
        PyDict.get String.eqb "MYSQL_DB" environ = Some database /\
        build_connection_pool_from py_int environ =
        let text :=
          match PyDict.get String.eqb "MYSQL_PORT" environ with
          | Some port => port
          | None => "3306"
          end in
        match py_int text with
        | Some port =>
            inr (build_connection_pool host user password database port)
        | None => inl (ValueError text)
        end
  end /\
  (forall pool,
     build_connection_pool_from py_int environ = inr pool ->
     pool_name pool = "mcp_mysql_pool" /\ pool_size pool = 5 /\
     charset pool = "utf8mb4" /\ autocommit pool = false).
Proof.
  unfold build_connection_pool_from, environ_getitem, environ_get,
    PyDict.mem. cbn [find].
  destruct (PyDict.get String.eqb "MYSQL_HOST" environ) as [host|];
    cbn; [|split; [reflexivity | discriminate]].
  destruct (PyDict.get String.eqb "MYSQL_USER" environ) as [user|];
    cbn; [|split; [reflexivity | discriminate]].
  destruct (PyDict.get String.eqb "MYSQL_PASSWORD" environ) as [password|];
    cbn; [|split; [reflexivity | discriminate]].
  destruct (PyDict.get String.eqb "MYSQL_DB" environ) as [database|];
    cbn; [|split; [reflexivity | discriminate]].
  split.
  - exists host, user, password, database. repeat split; reflexivity.
  - intros pool H.
    destruct (py_int _); [|discriminate].
    injection H as <-. repeat split; reflexivity.
Qed.

(* ================================================================== *)
(** * The further properties at work on the sample data *)

Lemma descriptors_have_a_column_witness :
  In sample_idx_ab (PyDict.values (index_fold sample_idx_rows)) /\
  exists r0 rest, In r0 sample_idx_rows /\
    idx_columns sample_idx_ab = index_column r0 :: rest.
Proof.
  assert (Hin : In sample_idx_ab
                   (PyDict.values (index_fold sample_idx_rows))).
  { vm_compute. right. left. reflexivity. }
  split; [exact Hin|].
  exact (proj1 (descriptors_have_a_column sample_idx_rows sample_fk_rows)
           _ Hin).
Defined.

Lemma sample_rows_ordered :
  StronglySorted
    (fun a b => index_key a = index_key b ->
                (ix_SEQ_IN_INDEX a <= ix_SEQ_IN_INDEX b)%Z) sample_idx_rows.
Proof.
  unfold sample_idx_rows.
  repeat (constructor; [|repeat constructor; intro H; simpl;
                         try lia; vm_compute in H; discriminate H]).
  constructor.
Defined.

Lemma ordered_rows_give_ordered_columns_witness :
  StronglySorted
    (fun c1 c2 => (ic_seq_in_index c1 <= ic_seq_in_index c2)%Z)
    (idx_columns sample_idx_ab).
Proof.
  apply (ordered_rows_give_ordered_columns sample_idx_rows
           sample_rows_ordered sample_idx_ab).
  vm_compute. right. left. reflexivity.
Defined.

Lemma inbound_entries_come_from_the_described_table_witness :
  In {| ib_name := Some "fk_owner";
        source_schema := Some "shop";
        source_table := Some "child";
        ib_columns := [ {| fc_column := Some "owner_id";
                           fc_references := Some "id" |} ] |}
     (PyDict.values (inbound (fk_fold sample_fk_rows))) /\
  In (Some "fk_owner")
     (map ob_name (PyDict.values (outbound (fk_fold sample_fk_rows)))).
Proof.
  assert (Hin : In {| ib_name := Some "fk_owner";
                      source_schema := Some "shop";
                      source_table := Some "child";
                      ib_columns := [ {| fc_column := Some "owner_id";
                                         fc_references := Some "id" |} ] |}
                   (PyDict.values (inbound (fk_fold sample_fk_rows)))).
  { vm_compute. right. left. reflexivity. }
  split; [exact Hin|].
  refine (proj2 (proj2
            (inbound_entries_come_from_the_described_table sample_fk_rows
               (Some "shop") (Some "child") _ _ Hin))).
  intros r H. simpl in H.
  destruct H as [<-|[<-|[<-|[]]]]; split; reflexivity.
Defined.

Lemma pool_failure_stops_the_tool_witness :
  run_query exhausted_driver "SELECT 1" [] =
  (Raises (DriverError "pool exhausted"), [EvGetConnection]) /\
  describe_table exhausted_driver "shop" "child" [] =
  (Raises (DriverError "pool exhausted"), [EvGetConnection]) /\
  describe_indexes_and_foreign_keys exhausted_driver "shop" "child" [] =
  (Raises (DriverError "pool exhausted"), [EvGetConnection]).
Proof.
  apply (pool_failure_stops_the_tool exhausted_driver). reflexivity.
Defined.

Lemma run_query_propagates_the_first_error_witness :
  run_query failing_driver "SELEC 1" [] =
  (Raises (DriverError "syntax error"),
   [EvGetConnection; EvCursor; EvExecute (SqlText "SELEC 1");
    EvCursorClose; EvConnClose]).
Proof.
  apply (proj1 (run_query_propagates_the_first_error failing_driver
                  "SELEC 1" (DriverError "syntax error")
                  eq_refl eq_refl eq_refl eq_refl)).
  reflexivity.
Defined.

Lemma closing_errors_replace_the_result_witness :
  snd (run_query close_failing_driver "DELETE FROM t" []) =
  [EvGetConnection; EvCursor; EvExecute (SqlText "DELETE FROM t");
   EvCommit; EvCursorClose; EvConnClose] /\
  fst (run_query close_failing_driver "DELETE FROM t" []) =
  Raises (DriverError "connection lost") /\
  fst (describe_table close_failing_driver "shop" "child" []) =
  Raises (DriverError "connection lost") /\
  fst (describe_indexes_and_foreign_keys close_failing_driver
         "shop" "child" []) =
  Raises (DriverError "connection lost").
Proof.
  split; [reflexivity|].
  apply (proj1 (closing_errors_replace_the_result close_failing_driver
                  "DELETE FROM t" "shop" "child"
                  (DriverError "connection lost") eq_refl)).
  reflexivity.
Defined.

Lemma describe_table_maps_rows_in_order_witness :
  exists ds,
    fst (describe_table catalog_driver "shop" "child" []) = Returns ds /\
    List.length ds = 2 /\
    exists d, nth_error ds 1 = Some d /\
      cdesc_column d = Some "label" /\
      cdesc_length d = Some 64%Z /\
      cdesc_nullable d = true.
Proof.
  destruct (describe_table_maps_rows_in_order catalog_driver "shop" "child"
              {| description := None; rowcount := 0 |} _
              eq_refl eq_refl eq_refl eq_refl eq_refl eq_refl)
    as (ds & Hrun & Hlen & Hnth).
  exists ds. split; [now rewrite Hrun|]. split; [exact Hlen|].
  destruct (Hnth 1 _ eq_refl) as (d & Hd & Hc & _ & Hl & Hn).
  exists d. repeat split; try assumption. now apply Hn.
Defined.

Lemma describe_indexes_returns_the_folds_witness :
  exists rel,
    fst (describe_indexes_and_foreign_keys catalog_driver "shop" "child" []) =
    Returns rel /\
    map idx_name (indexes rel) = ["PRIMARY"; "idx_ab"; "(unnamed)"] /\
    total_entries idx_columns (indexes rel) = 4 /\
    total_entries ob_columns (foreign_keys_outbound rel) = 3.
Proof.
  destruct (describe_indexes_returns_the_folds catalog_driver "shop" "child"
              {| description := None; rowcount := 0 |}
              {| description := None; rowcount := 0 |} _ _
              eq_refl eq_refl eq_refl eq_refl eq_refl eq_refl eq_refl eq_refl)
    as (rel & Hrun & Hi & _ & _ & _ & _ & Ti & To & _).
  exists rel. split; [now rewrite Hrun|].
  split; [rewrite Hi; reflexivity|]. split; assumption.
Defined.

Lemma pool_settings_from_environment_witness :
  build_connection_pool_from sample_int sample_environ =
  inr (build_connection_pool "db.internal" "app" "secret" "shop" 3306) /\
  build_connection_pool_from sample_int
    (("MYSQL_PORT", "") :: sample_environ) = inl (ValueError "") /\
  build_connection_pool_from sample_int
    [("MYSQL_HOST", "db.internal"); ("MYSQL_PORT", "x")] =
  inl (KeyError "MYSQL_USER") /\
  autocommit (build_connection_pool "db.internal" "app" "secret" "shop" 3306)
  = false.
Proof.
  split; [reflexivity|]. split; [reflexivity|]. split; [reflexivity|].
  apply (proj2 (pool_settings_from_environment sample_int sample_environ)
           (build_connection_pool "db.internal" "app" "secret" "shop" 3306)).
  reflexivity.
Defined.

Lemma describe_indexes_has_no_partial_result_witness :
  describe_indexes_and_foreign_keys key_usage_denied_driver
    "shop" "child" [] =
  (Raises (DriverError "access denied"),
   [EvGetConnection; EvCursor; EvExecute (IndexQuery "shop" "child");
    EvFetchall; EvExecute (FkQuery "shop" "child");
    EvCursorClose; EvConnClose]).
Proof.
  apply (proj1 (proj2 (proj2
           (describe_indexes_has_no_partial_result key_usage_denied_driver
              "shop" "child" (DriverError "access denied")
              eq_refl eq_refl eq_refl eq_refl)))
           {| description := None; rowcount := 0 |} sample_idx_rows);
    reflexivity.
Defined.
